(** * kylejlin/option: the [Option] class of [src/index.ts]

    A shallow embedding of the class [Option], its module constant [NONE],
    the error class [UnwrapError] and the factory function [optionDotAll].

    JavaScript objects have reference identity, so containers live on a heap
    and a value of the embedding is either a primitive or a reference.
    Methods are computations in a state-and-exception monad; user callbacks
    are arbitrary computations of that monad, which may change the heap,
    record calls and throw. *)

From Stdlib Require Import ZArith String.
From stdpp Require Import gmap strings list fin_maps.

Local Open Scope string_scope.
Local Open Scope list_scope.
Local Open Scope nat_scope.

(** ** Values, objects and the heap *)

Abbreviation loc := nat (only parsing).

(** A JavaScript value: a primitive or a reference to a heap object.
    Numbers are integers here; no operation of the class does arithmetic. *)
Inductive val : Type :=
| VUndefined
| VNull
| VBoolean (b : bool)
| VNumber (n : Z)
| VString (s : string)
| VObject (l : loc).

#[global] Instance val_eq_dec : EqDecision val.
Proof. solve_decision. Defined.

(** What [Object.create(C.prototype)] and [new C] hang an object on. *)
Inductive prototype : Type :=
| OptionProto
| ErrorProto
| UnwrapErrorProto
| TypeErrorProto
| ObjectProto.

#[global] Instance prototype_eq_dec : EqDecision prototype.
Proof. solve_decision. Defined.

(** A heap object: a plain object with its prototype and own data
    properties, or an array. *)
Inductive object : Type :=
| Obj (proto : prototype) (fields : gmap string val)
| Arr (elems : list val).

#[global] Instance object_eq_dec : EqDecision object.
Proof. solve_decision. Defined.

(** One recorded call of an instrumented function ([jest.fn] in the tests):
    the function's label and the arguments it received. *)
Abbreviation call := (string * list val)%type (only parsing).

Record state : Type := mkState {
  heap : gmap loc object;
  calls : list call
}.

Definition set_heap (h : gmap loc object) (s : state) : state :=
  {| heap := h; calls := calls s |}.

Definition log_call (c : call) (s : state) : state :=
  {| heap := heap s; calls := calls s ++ [c] |}.

(** ** The monad of method bodies *)

(** A computation returns, throws a value, or (only [all]'s loop, which is
    given fuel) stops for lack of fuel. *)
Inductive outcome (A : Type) : Type :=
| Return (a : A)
| Throw (e : val)
| OutOfFuel.

Arguments Return {A} a.
Arguments Throw {A} e.
Arguments OutOfFuel {A}.

Definition M (A : Type) : Type := state -> outcome A * state.

Definition ret {A} (a : A) : M A := fun s => (Return a, s).

Definition throw {A} (e : val) : M A := fun s => (Throw e, s).

Definition bind {A B} (m : M A) (k : A -> M B) : M B :=
  fun s =>
    match m s with
    | (Return a, s') => k a s'
    | (Throw e, s') => (Throw e, s')
    | (OutOfFuel, s') => (OutOfFuel, s')
    end.

Notation "x <- m ;; k" := (bind m (fun x => k))
  (at level 100, m at next level, right associativity).
Notation "m ;;; k" := (bind m (fun _ => k))
  (at level 100, right associativity).

(** A function value as the class receives it: it is called with an
    argument list. *)
Abbreviation callback := (list val -> M val) (only parsing).

(** [x => body]: the first argument, [undefined] when there is none. *)
Definition arg0 (args : list val) : val := default VUndefined (args !! 0).

(** ** Primitive operations *)

(** JavaScript's ToBoolean. *)
Definition truthy (v : val) : bool :=
  match v with
  | VUndefined | VNull => false
  | VBoolean b => b
  | VNumber n => negb (n =? 0)%Z
  | VString s => negb (String.eqb s "")
  | VObject _ => true
  end.

(** [typeof v]. Callbacks are functions of the embedding, not heap objects,
    so every reference reports ["object"]. *)
Definition typeof (v : val) : string :=
  match v with
  | VUndefined => "undefined"
  | VNull => "object"
  | VBoolean _ => "boolean"
  | VNumber _ => "number"
  | VString _ => "string"
  | VObject _ => "object"
  end.

(** Allocation of a new object at an unused address. *)
Definition alloc (o : object) : M val :=
  fun s =>
    let l := fresh (dom (heap s)) in
    (Return (VObject l), set_heap (<[l := o]> (heap s)) s).

(** [Object.create(proto)]: a new object without own properties. *)
Definition Object_create (p : prototype) : M val := alloc (Obj p ∅).

(** The runtime's own [TypeError], raised when a property of [null] or
    [undefined] is read or written, or when what is called is no function.
    The text of its message is the engine's; the strings given here tell
    the places apart and no statement depends on them. *)
Definition throw_TypeError {A} (message : string) : M A :=
  e <- alloc (Obj TypeErrorProto
                (<["name" := VString "TypeError"]>
                   (<["message" := VString message]> ∅))) ;;
  throw e.

(** [o.k] for a data property [k]: own properties only, which is all the
    class reads ([isNone_] and [value]); a missing property and a property
    of a primitive read as [undefined]. *)
Definition get_prop (o : val) (k : string) : M val :=
  match o with
  | VUndefined | VNull => throw_TypeError "Cannot read properties of undefined"
  | VBoolean _ | VNumber _ | VString _ => ret VUndefined
  | VObject l =>
      fun s =>
        match heap s !! l with
        | Some (Obj _ fields) => (Return (default VUndefined (fields !! k)), s)
        | Some (Arr _) => (Return VUndefined, s)
        | None => throw_TypeError "Cannot read properties of undefined" s
        end
  end.

(** [o.k = v]. The class assigns only to objects it has just created. *)
Definition set_prop (o : val) (k : string) (v : val) : M unit :=
  match o with
  | VObject l =>
      fun s =>
        match heap s !! l with
        | Some (Obj p fields) =>
            (Return tt, set_heap (<[l := Obj p (<[k := v]> fields)]> (heap s)) s)
        | _ => throw_TypeError "Cannot create property" s
        end
  | _ => throw_TypeError "Cannot create property"
  end.

(** [[]]: a new empty array. *)
Definition new_Array : M val := alloc (Arr []).

(** [a.length], [a[i]] and [a.push(v)] of an array reference. The
    signature of [all] admits arrays only and the statements about [all]
    are about arrays; for any other argument the embedding stops with a
    [TypeError]. *)
Definition array_length (a : val) : M nat :=
  match a with
  | VObject l =>
      fun s =>
        match heap s !! l with
        | Some (Arr elems) => (Return (length elems), s)
        | _ => throw_TypeError "not an array" s
        end
  | _ => throw_TypeError "not an array"
  end.

Definition array_get (a : val) (i : nat) : M val :=
  match a with
  | VObject l =>
      fun s =>
        match heap s !! l with
        | Some (Arr elems) => (Return (default VUndefined (elems !! i)), s)
        | _ => throw_TypeError "not an array" s
        end
  | _ => throw_TypeError "not an array"
  end.

Definition array_push (a : val) (v : val) : M unit :=
  match a with
  | VObject l =>
      fun s =>
        match heap s !! l with
        | Some (Arr elems) =>
            (Return tt, set_heap (<[l := Arr (elems ++ [v])]> (heap s)) s)
        | _ => throw_TypeError "not an array" s
        end
  | _ => throw_TypeError "not an array"
  end.

(** ** [UnwrapError] *)

(** [Error]'s constructor as [super(message)] runs it on the new object:
    [this.message] is [ToString(message)], the identity on the strings the
    constructor's signature admits. *)
Definition Error_constructor (this : val) (message : val) : M unit :=
  set_prop this "message" message.

(** [new UnwrapError(message)]:
    [constructor(message) { super(message); this.name = "UnwrapError"; }] *)
Definition new_UnwrapError (message : val) : M val :=
  this <- Object_create UnwrapErrorProto ;;
  Error_constructor this message ;;;
  set_prop this "name" (VString "UnwrapError") ;;;
  ret this.

(** ** The class [Option] *)

(** The argument of [match]: [{ none: () => N; some: (value: T) => S }]. *)
Module Matcher.
Record t : Type := make {
  none : list val -> M val;
  some : list val -> M val
}.
End Matcher.

Module Option.
Section class.

(** The module constant [NONE], bound once when the module is loaded (see
    [NONE_init] below for the expression it is bound to). *)
Variable NONE : val.

(** [static some<T>(value: T): Option<T>] *)
Definition some (value : val) : M val :=
  some <- Object_create OptionProto ;;
  set_prop some "isNone_" (VBoolean false) ;;;
  set_prop some "value" value ;;;
  ret some.

(** [static none<T>(): Option<T> { return NONE; }] *)
Definition none : M val := ret NONE.

(** [isNone(): boolean { return (this as any).isNone_; }] *)
Definition isNone (this : val) : M val := get_prop this "isNone_".

(** [isSome(): boolean { return !this.isNone(); }] *)
Definition isSome (this : val) : M val :=
  b <- isNone this ;;
  ret (VBoolean (negb (truthy b))).

(** [o.isSome()] as [all] calls it on the elements of its argument: the
    method is found through [Option.prototype]; calling it on anything
    else is a [TypeError]. The objects of the embedding hold data only, so
    an element that brings an [isSome] function of its own is not among
    the values; the statements about what [all] returns or throws are
    about arrays of containers, [null] and [undefined]. *)
Definition call_isSome (o : val) : M val :=
  match o with
  | VObject l =>
      fun s =>
        match heap s !! l with
        | Some (Obj OptionProto _) => isSome o s
        | _ => throw_TypeError "option.isSome is not a function" s
        end
  | _ => throw_TypeError "option.isSome is not a function"
  end.

(** [match<N, S>(matcher): N | S]. The receiver is an [Option] object,
    on which [this.isNone()] is the class's [isNone]. *)
Definition match_ (this : val) (matcher : Matcher.t) : M val :=
  b <- isNone this ;;
  if truthy b then
    Matcher.none matcher []
  else
    value <- get_prop this "value" ;;
    Matcher.some matcher [value].

(** [static all<T>(options: Option<T>[]): Option<T[]>]: the [for] loop,
    entered with the counter [i]; one unit of fuel per iteration. *)
Fixpoint all_loop (fuel : nat) (options values : val) (i : nat) {struct fuel}
  : M val :=
  length <- array_length options ;;
  if i <? length then
    match fuel with
    | O => fun s => (OutOfFuel, s)
    | S fuel' =>
        option <- array_get options i ;;
        b <- call_isSome option ;;
        if truthy b then
          v <- get_prop option "value" ;;
          array_push values v ;;;
          all_loop fuel' options values (S i)
        else
          none
    end
  else
    some values.

Definition all (fuel : nat) (options : val) : M val :=
  values <- new_Array ;;
  all_loop fuel options values 0.

(** [map<R>(mapper: (value: T) => R): Option<R>] *)
Definition map (this : val) (mapper : list val -> M val) : M val :=
  match_ this
    {| Matcher.none := fun _ => ret this;
       Matcher.some := fun args =>
         r <- mapper [arg0 args] ;;
         some r |}.

(** [ifSome(executor: (value: T) => void): void { this.map(executor); }] *)
Definition ifSome (this : val) (executor : list val -> M val) : M val :=
  map this executor ;;;
  ret VUndefined.

(** [ifNone(executor: () => void): void] *)
Definition ifNone (this : val) (executor : list val -> M val) : M val :=
  b <- isNone this ;;
  if truthy b then
    executor [] ;;;
    ret VUndefined
  else
    ret VUndefined.

(** [expect(message: string | Error): T] *)
Definition expect (this : val) (message : val) : M val :=
  match_ this
    {| Matcher.none := fun _ =>
         error <- (if String.eqb "string" (typeof message)
                   then new_UnwrapError message
                   else ret message) ;;
         throw error;
       Matcher.some := fun args => ret (arg0 args) |}.

(** [unwrap(): T] *)
Definition unwrap (this : val) : M val :=
  expect this (VString "Tried to call unwrap() on Option.none()").

(** [unwrapOr<D>(defaultValue: D): T | D] *)
Definition unwrapOr (this : val) (defaultValue : val) : M val :=
  match_ this
    {| Matcher.none := fun _ => ret defaultValue;
       Matcher.some := fun args => ret (arg0 args) |}.

(** [unwrapOrElse<D>(defaultValueThunk: () => D): T | D] *)
Definition unwrapOrElse (this : val)
    (defaultValueThunk : list val -> M val) : M val :=
  match_ this
    {| Matcher.none := fun _ => defaultValueThunk [];
       Matcher.some := fun args => ret (arg0 args) |}.

(** [andThen<U>(flatMapper: (value: T) => Option<U>): Option<U>] *)
Definition andThen (this : val) (flatMapper : list val -> M val)
  : M val :=
  match_ this
    {| Matcher.none := fun _ => none;
       Matcher.some := flatMapper |}.

End class.
End Option.

(** The expression [NONE] is bound to when the module is loaded:
    [(() => { const none = Object.create(Option.prototype);
              none.isNone_ = true; return none; })()] *)
Definition NONE_init : M val :=
  none <- Object_create OptionProto ;;
  set_prop none "isNone_" (VBoolean true) ;;;
  ret none.

(** ** The factory of the interface module and [OptionImpl] *)

Module OptionImpl.
Section impl.

Variable NONE : val.

(** Modelled from the spec: the class [OptionImpl] (src/OptionImpl.ts) that
    the factory imports is missing from the sources. Its [some] "constructs
    and returns a new [Some] container wrapping [value] exactly", which is
    what [Option.some] of the class above does. *)
Definition some (value : val) : M val := Option.some value.

(** Modelled from the spec: [OptionImpl.none] is missing from the sources;
    it "returns the canonical shared [None] instance". *)
Definition none : M val := Option.none NONE.

(** Modelled from the spec: [filter] is declared in the interface and
    implemented in the missing [OptionImpl]. On [Some(v)] it "returns [this]
    if [pred(v)] is true, else [None]"; on [None] it "returns [None], [pred]
    never invoked". *)
Definition filter (this : val) (predicate : list val -> M val) : M val :=
  Option.match_ this
    {| Matcher.none := fun _ => none;
       Matcher.some := fun args =>
         keep <- predicate [arg0 args] ;;
         if truthy keep then ret this else none |}.

(** Modelled from the spec: [orElse] is declared in the interface and
    implemented in the missing [OptionImpl]. On [Some] it "returns [this]
    unchanged, [f] never invoked"; on [None] it "returns [f()]". *)
Definition orElse (this : val) (otherThunk : list val -> M val) : M val :=
  Option.match_ this
    {| Matcher.none := fun _ => otherThunk [];
       Matcher.some := fun _ => ret this |}.

(** Modelled from the spec: [xor] is declared in the interface and
    implemented in the missing [OptionImpl]. On [Some(v)]: "if [other] is
    [None], returns [this]; if [other] is [Some], returns [None]". On
    [None]: "if [other] is [Some], returns [other]; if [other] is [None],
    returns [None]". *)
Definition xor (this other : val) : M val :=
  Option.match_ this
    {| Matcher.none := fun _ =>
         Option.match_ other
           {| Matcher.none := fun _ => none;
              Matcher.some := fun _ => ret other |};
       Matcher.some := fun _ =>
         Option.match_ other
           {| Matcher.none := fun _ => ret this;
              Matcher.some := fun _ => none |} |}.

End impl.
End OptionImpl.

Section factory.

Variable NONE : val.

(** [export function optionDotAll<T>(options: Option<T>[]): Option<T[]>]:
    the loop of [Option.all] once more, ending in [OptionImpl]'s statics. *)
Fixpoint optionDotAll_loop (fuel : nat) (options values : val) (i : nat)
  {struct fuel} : M val :=
  length <- array_length options ;;
  if i <? length then
    match fuel with
    | O => fun s => (OutOfFuel, s)
    | S fuel' =>
        option <- array_get options i ;;
        b <- Option.call_isSome option ;;
        if truthy b then
          v <- get_prop option "value" ;;
          array_push values v ;;;
          optionDotAll_loop fuel' options values (S i)
        else
          OptionImpl.none NONE
    end
  else
    OptionImpl.some values.

Definition optionDotAll (fuel : nat) (options : val) : M val :=
  values <- new_Array ;;
  optionDotAll_loop fuel options values 0.

End factory.

(** ** Vocabulary of the statements *)

(** The object [Option.some(v)] builds, and the one [NONE] is bound to. *)
Definition some_object (v : val) : object :=
  Obj OptionProto (<["value" := v]> (<["isNone_" := VBoolean false]> ∅)).

Definition none_object : object :=
  Obj OptionProto (<["isNone_" := VBoolean true]> ∅).

(** The object [new UnwrapError(message)] builds. *)
Definition unwrap_error_object (message : val) : object :=
  Obj UnwrapErrorProto
    (<["name" := VString "UnwrapError"]> (<["message" := message]> ∅)).

(** What a value refers to in a state. *)
Definition deref (s : state) (o : val) : option object :=
  match o with
  | VObject l => heap s !! l
  | _ => None
  end.

(** [o] is a [Some] container with payload [v]; [o] is a [None] container. *)
Definition is_some (s : state) (o v : val) : Prop :=
  deref s o = Some (some_object v).

Definition is_none (s : state) (o : val) : Prop :=
  deref s o = Some none_object.

(** The tag of an object: an [Option] whose [isNone_] is truthy. *)
Definition tagged_none (ob : object) : bool :=
  match ob with
  | Obj OptionProto fields => truthy (default VUndefined (fields !! "isNone_"))
  | _ => false
  end.

(** No object of the heap is tagged [None]: the state of a program that has
    not yet loaded the module. *)
Definition no_none (s : state) : Prop :=
  ∀ l ob, heap s !! l = Some ob → tagged_none ob = false.

(** Every object of the heap that is tagged [None] is the one [NONE]
    refers to. *)
Definition canonical (NONE : val) (s : state) : Prop :=
  ∀ l ob, heap s !! l = Some ob → tagged_none ob = true → NONE = VObject l.

(** An instrumented function as the tests build it with [jest.fn(impl)]:
    it records its label and arguments, then returns [impl]'s result. *)
Definition jest_fn (label : string) (impl : list val -> val)
  : list val -> M val :=
  fun args s => (Return (impl args), log_call (label, args) s).

(** The state a program is in once it has loaded the module on an empty
    heap, and the reference [NONE] is bound to there. *)
Definition loaded_state : state := snd (NONE_init (mkState ∅ [])).

Definition loaded_NONE : val := VObject 0.

(** The [message] property of what [e] refers to. *)
Definition error_message (s : state) (e : val) : option val :=
  match deref s e with
  | Some (Obj _ fields) => fields !! "message"
  | _ => None
  end.

(** The text the specification gives for [unwrap]'s message, and the text
    the method passes to [expect]. *)
Definition specified_unwrap_message : string :=
  "Tried to call unwrap() on a none value".

Definition unwrap_message : string :=
  "Tried to call unwrap() on Option.none()".

(** A computation keeps the heap canonical. *)
Definition preserves {A} (NONE : val) (m : M A) : Prop :=
  ∀ s, canonical NONE s → canonical NONE (snd (m s)).

(** The address [all] gives its local [values] when it is entered in state
    [s0], and the state of its loop when [values] holds [acc]: nothing else
    changes while the loop runs. *)
Definition loop_values (s0 : state) : loc := fresh (dom (heap s0)).

Definition loop_state (s0 : state) (acc : list val) : state :=
  set_heap (<[loop_values s0 := Arr acc]> (heap s0)) s0.

(** ** Sample states for the closed instances *)

(** A [Some] container with payload [4], built in the loaded state. *)
Definition sample_state : state := snd (Option.some (VNumber 4) loaded_state).

Definition sample_some : val := VObject 1.

(** [{ none: jest.fn(() => -1), some: jest.fn(x => x) }] *)
Definition sample_matcher : Matcher.t :=
  {| Matcher.none := jest_fn "none" (fun _ => VNumber (-1));
     Matcher.some := jest_fn "some" arg0 |}.

(** An [Error] object as a caller builds it with [new Error(message)]. *)
Definition error_object (message : val) : object :=
  Obj ErrorProto (<["message" := message]> ∅).

(** The sample state with [new Error("Oh noes!")] in it, at address 2. *)
Definition sample_error_state : state :=
  snd (alloc (error_object (VString "Oh noes!")) sample_state).

(** Two [Some] containers, [some(1)] at address 1 and [some(2)] at 2. *)
Definition pair_state : state :=
  snd ((Option.some (VNumber 1) ;;; Option.some (VNumber 2)) loaded_state).

(** A callback that throws the error object at address 2, after recording
    that it was called. *)
Definition failing_callback : list val → M val :=
  fun args s => (Throw (VObject 2), log_call ("failing", args) s).

(** [[some(1), none, some(2)]] at address 3 and [[some(1), some(2)]] at
    address 4, in the state with the two containers. *)
Definition all_state : state :=
  snd ((alloc (Arr [VObject 1; loaded_NONE; VObject 2]) ;;;
        alloc (Arr [VObject 1; VObject 2])) pair_state).

(** ** Vocabulary of the further properties *)

(** [o] is a container: a [Some] with some payload, or a [None]. *)
Definition is_container (s : state) (o : val) : Prop :=
  (∃ v, is_some s o v) ∨ is_none s o.

(** The state [s] still holds every object of the heap [h0], unchanged. *)
Definition over (h0 : gmap loc object) (s : state) : Prop :=
  ∀ l ob, h0 !! l = Some ob → heap s !! l = Some ob.

(** A computation changes no object of [h0]. *)
Definition keeps {A} (h0 : gmap loc object) (m : M A) : Prop :=
  ∀ s, over h0 s → over h0 (snd (m s)).

(** The arrow function [x => f(x)] for a [f] without effects. *)
Definition pure_fn (f : val → val) : list val → M val :=
  fun args => ret (f (arg0 args)).

(** * Properties *)

(** ** Running the constructors and the dispatch primitive *)

Lemma bind_Return {A B} (m : M A) (k : A → M B) s a s' :
  m s = (Return a, s') → bind m k s = k a s'.
Proof. intros H. unfold bind. by rewrite H. Qed.

Lemma bind_Throw {A B} (m : M A) (k : A → M B) s e s' :
  m s = (Throw e, s') → bind m k s = (Throw e, s').
Proof. intros H. unfold bind. by rewrite H. Qed.

Lemma fresh_unused (s : state) : heap s !! fresh (dom (heap s)) = None.
Proof. apply not_elem_of_dom, is_fresh. Qed.

Lemma some_run (v : val) (s : state) :
  Option.some v s =
  (Return (VObject (fresh (dom (heap s)))),
   set_heap (<[fresh (dom (heap s)) := some_object v]> (heap s)) s).
Proof.
  unfold Option.some, Object_create, alloc, bind, set_prop, ret, set_heap. simpl.
  rewrite lookup_insert_eq. simpl. rewrite lookup_insert_eq.
  by rewrite !insert_insert_eq.
Qed.

Lemma NONE_init_run (s : state) :
  NONE_init s =
  (Return (VObject (fresh (dom (heap s)))),
   set_heap (<[fresh (dom (heap s)) := none_object]> (heap s)) s).
Proof.
  unfold NONE_init, Object_create, alloc, bind, set_prop, ret, set_heap. simpl.
  rewrite lookup_insert_eq. by rewrite !insert_insert_eq.
Qed.

Lemma new_UnwrapError_run (message : val) (s : state) :
  new_UnwrapError message s =
  (Return (VObject (fresh (dom (heap s)))),
   set_heap (<[fresh (dom (heap s)) := unwrap_error_object message]> (heap s)) s).
Proof.
  unfold new_UnwrapError, Error_constructor, Object_create, alloc, bind,
    set_prop, ret, set_heap. simpl.
  rewrite lookup_insert_eq. simpl. rewrite lookup_insert_eq.
  by rewrite !insert_insert_eq.
Qed.

Lemma is_some_inv s o v :
  is_some s o v → ∃ l, o = VObject l ∧ heap s !! l = Some (some_object v).
Proof. destruct o; try discriminate. intros H. by exists l. Qed.

Lemma is_none_inv s o :
  is_none s o → ∃ l, o = VObject l ∧ heap s !! l = Some none_object.
Proof. destruct o; try discriminate. intros H. by exists l. Qed.

Lemma isNone_some s o v :
  is_some s o v → Option.isNone o s = (Return (VBoolean false), s).
Proof.
  intros (l & -> & H)%is_some_inv. unfold Option.isNone. simpl. by rewrite H.
Qed.

Lemma isNone_none s o :
  is_none s o → Option.isNone o s = (Return (VBoolean true), s).
Proof.
  intros (l & -> & H)%is_none_inv. unfold Option.isNone. simpl. by rewrite H.
Qed.

Lemma value_some s o v :
  is_some s o v → get_prop o "value" s = (Return v, s).
Proof.
  intros (l & -> & H)%is_some_inv. simpl. by rewrite H.
Qed.

Lemma match_some s this v matcher :
  is_some s this v →
  Option.match_ this matcher s = Matcher.some matcher [v] s.
Proof.
  intros H. unfold Option.match_.
  rewrite (bind_Return _ _ _ _ _ (isNone_some _ _ _ H)). simpl.
  by rewrite (bind_Return _ _ _ _ _ (value_some _ _ _ H)).
Qed.

Lemma match_none s this matcher :
  is_none s this →
  Option.match_ this matcher s = Matcher.none matcher [] s.
Proof.
  intros H. unfold Option.match_.
  by rewrite (bind_Return _ _ _ _ _ (isNone_none _ _ H)).
Qed.

(** ** [match] *)

(** On an [Option] object, one that has [Option.prototype] and no own
    property [isNone] in the way of the class's method, [match] looks at
    the truthiness of [isNone_] and at nothing else to choose its
    callback. *)
Lemma match_by_tag s l fields matcher :
  heap s !! l = Some (Obj OptionProto fields) →
  fields !! "isNone" = None →
  Option.match_ (VObject l) matcher s
  = if truthy (default VUndefined (fields !! "isNone_"))
    then Matcher.none matcher [] s
    else Matcher.some matcher [default VUndefined (fields !! "value")] s.
Proof.
  intros H _. unfold Option.match_, Option.isNone, bind, get_prop. rewrite H.
  destruct (truthy (default VUndefined (fields !! "isNone_"))); [done|].
  by rewrite H.
Qed.

(** C3: [match] invokes exactly one of the two callbacks, chosen by the
    container's tag alone (on an [Option] object the truthiness of
    [isNone_] decides, whatever its payload): on a [Some] container it is
    the call
    [matcher.some(payload)], on a [None] container the call [matcher.none()],
    and the result (and every effect) of [match] is that call's. With both
    callbacks instrumented, the log grows by exactly the one chosen call. *)
Theorem match_invokes_exactly_one (s : state) (this v : val) :
  (∀ l fields matcher,
     heap s !! l = Some (Obj OptionProto fields) →
     fields !! "isNone" = None →
     Option.match_ (VObject l) matcher s
     = if truthy (default VUndefined (fields !! "isNone_"))
       then Matcher.none matcher [] s
       else Matcher.some matcher [default VUndefined (fields !! "value")] s) ∧
  (is_some s this v →
     (∀ matcher, Option.match_ this matcher s = Matcher.some matcher [v] s) ∧
     (∀ fn fs,
        Option.match_ this
          {| Matcher.none := jest_fn "none" fn;
             Matcher.some := jest_fn "some" fs |} s
        = (Return (fs [v]), log_call ("some", [v]) s))) ∧
  (is_none s this →
     (∀ matcher, Option.match_ this matcher s = Matcher.none matcher [] s) ∧
     (∀ fn fs,
        Option.match_ this
          {| Matcher.none := jest_fn "none" fn;
             Matcher.some := jest_fn "some" fs |} s
        = (Return (fn []), log_call ("none", []) s))).
Proof.
  split; [intros l fields matcher; apply match_by_tag|].
  split; intros H; split; intros.
  - by apply match_some.
  - by rewrite (match_some _ _ _ _ H).
  - by apply match_none.
  - by rewrite (match_none _ _ _ H).
Qed.

Lemma match_invokes_exactly_one_witness :
  Option.match_ sample_some sample_matcher sample_state
  = (Return (VNumber 4), log_call ("some", [VNumber 4]) sample_state) ∧
  Option.match_ loaded_NONE sample_matcher sample_state
  = (Return (VNumber (-1)), log_call ("none", []) sample_state) ∧
  Option.match_ (VObject 1) sample_matcher sample_state
  = Matcher.some sample_matcher [VNumber 4] sample_state.
Proof.
  split; [|split].
  - apply (proj1 (proj2
      (match_invokes_exactly_one sample_state sample_some (VNumber 4)))).
    vm_compute. reflexivity.
  - apply (proj2 (proj2
      (match_invokes_exactly_one sample_state loaded_NONE VNull))).
    vm_compute. reflexivity.
  - rewrite (proj1 (match_invokes_exactly_one sample_state sample_some VNull) 1
               (<["value" := VNumber 4]> (<["isNone_" := VBoolean false]> ∅))
               sample_matcher).
    + reflexivity.
    + vm_compute. reflexivity.
    + vm_compute. reflexivity.
Defined.

(** ** [map] *)

(** C4: on a [Some] container with payload [v], [map(f)] calls [f(v)] and
    returns a new [Some] container wrapping the result; on a [None]
    container it returns that same container, the state is untouched, and
    [f], whatever it is, takes no part: it is never invoked. *)
Theorem map_some_none (s : state) (this v : val) :
  (is_some s this v →
     (∀ f, Option.map this f s = (r <- f [v] ;; Option.some r) s) ∧
     (∀ f r s', f [v] s = (Return r, s') →
        let l := fresh (dom (heap s')) in
        Option.map this f s
        = (Return (VObject l), set_heap (<[l := some_object r]> (heap s')) s')
        ∧ is_some (snd (Option.map this f s)) (VObject l) r)) ∧
  (is_none s this →
     (∀ f, Option.map this f s = (Return this, s)) ∧
     (∀ impl, calls (snd (Option.map this (jest_fn "mapper" impl) s)) = calls s)).
Proof.
  split; intros H.
  - assert (E : ∀ f, Option.map this f s = (r <- f [v] ;; Option.some r) s).
    { intros f. unfold Option.map. by rewrite (match_some _ _ _ _ H). }
    split; [exact E|]. intros f r s' Hf l.
    rewrite E, (bind_Return _ _ _ _ _ Hf), some_run. split; [done|].
    unfold is_some. simpl. by rewrite lookup_insert_eq.
  - assert (E : ∀ f, Option.map this f s = (Return this, s)).
    { intros f. unfold Option.map. by rewrite (match_none _ _ _ H). }
    split; [exact E|]. intros impl. by rewrite E.
Qed.

Lemma map_some_none_witness :
  Option.map sample_some (jest_fn "mapper" (fun _ => VNumber 12)) sample_state
  = (Return (VObject 2),
     set_heap (<[2 := some_object (VNumber 12)]> (heap sample_state))
       (log_call ("mapper", [VNumber 4]) sample_state)) ∧
  Option.map loaded_NONE (jest_fn "mapper" (fun _ => VNumber 12)) sample_state
  = (Return loaded_NONE, sample_state).
Proof.
  split.
  - destruct (proj1 (map_some_none sample_state sample_some (VNumber 4)))
      as [_ H]; [vm_compute; reflexivity|].
    apply (H (jest_fn "mapper" (fun _ => VNumber 12)) (VNumber 12)
             (log_call ("mapper", [VNumber 4]) sample_state)).
    reflexivity.
  - apply (proj2 (map_some_none sample_state loaded_NONE VNull)).
    vm_compute. reflexivity.
Defined.

(** ** [andThen] *)

(** C8: on a [None] container [andThen(f)] returns [NONE] and leaves the
    state as it is, for every [f]: [f] is never invoked. On a [Some]
    container with payload [v] the whole of [andThen(f)] is the one call
    [f(v)]: its result is returned as it is, nothing is allocated around
    it, and an instrumented [f] records exactly that call. *)
Theorem andThen_calls_once (NONE : val) (s : state) (this v : val) :
  (is_none s this →
     (∀ f, Option.andThen NONE this f s = (Return NONE, s)) ∧
     (∀ impl,
        calls (snd (Option.andThen NONE this (jest_fn "flatMapper" impl) s))
        = calls s)) ∧
  (is_some s this v →
     (∀ f, Option.andThen NONE this f s = f [v] s) ∧
     (∀ impl,
        Option.andThen NONE this (jest_fn "flatMapper" impl) s
        = (Return (impl [v]), log_call ("flatMapper", [v]) s))).
Proof.
  split; intros H.
  - assert (E : ∀ f, Option.andThen NONE this f s = (Return NONE, s)).
    { intros f. unfold Option.andThen. by rewrite (match_none _ _ _ H). }
    split; [exact E|]. intros impl. by rewrite E.
  - assert (E : ∀ f, Option.andThen NONE this f s = f [v] s).
    { intros f. unfold Option.andThen. by rewrite (match_some _ _ _ _ H). }
    split; [exact E|]. intros impl. by rewrite E.
Qed.

Lemma andThen_calls_once_witness :
  Option.andThen loaded_NONE loaded_NONE (jest_fn "flatMapper" arg0) sample_state
  = (Return loaded_NONE, sample_state) ∧
  Option.andThen loaded_NONE sample_some (jest_fn "flatMapper" arg0) sample_state
  = (Return (VNumber 4), log_call ("flatMapper", [VNumber 4]) sample_state).
Proof.
  split.
  - apply (proj1 (andThen_calls_once loaded_NONE sample_state loaded_NONE VNull)).
    vm_compute. reflexivity.
  - apply (proj2 (andThen_calls_once loaded_NONE sample_state sample_some
                    (VNumber 4))).
    vm_compute. reflexivity.
Defined.

(** ** [expect] and [unwrap] *)

(** [typeof] reports ["string"] for strings and for nothing else. *)
Lemma typeof_string (arg : val) :
  String.eqb "string" (typeof arg) = true ↔ ∃ m, arg = VString m.
Proof.
  split.
  - destruct arg; simpl; try discriminate. eauto.
  - by intros [m ->].
Qed.

Lemma expect_none_string s this m :
  is_none s this →
  let l := fresh (dom (heap s)) in
  Option.expect this (VString m) s
  = (Throw (VObject l),
     set_heap (<[l := unwrap_error_object (VString m)]> (heap s)) s).
Proof.
  intros H l. unfold Option.expect. rewrite (match_none _ _ _ H). simpl.
  by rewrite (bind_Return _ _ _ _ _ (new_UnwrapError_run _ _)).
Qed.

Lemma expect_none_other s this arg :
  is_none s this → (∀ m, arg ≠ VString m) →
  Option.expect this arg s = (Throw arg, s).
Proof.
  intros H Harg. unfold Option.expect. rewrite (match_none _ _ _ H).
  cbn [Matcher.none].
  destruct (String.eqb "string" (typeof arg)) eqn:E; [|reflexivity].
  apply typeof_string in E as [m ->]. by destruct (Harg m).
Qed.

Lemma expect_some s this v arg :
  is_some s this v → Option.expect this arg s = (Return v, s).
Proof.
  intros H. unfold Option.expect. by rewrite (match_some _ _ _ _ H).
Qed.

(** C6: on a [None] container, [expect] with a string throws a newly
    constructed [UnwrapError] (a reference unused before the call) whose
    message is the string; with a reference to an error object it throws
    that very reference and leaves the state, hence the object, as it was.
    On a [Some] container it returns the payload whatever the argument. *)
Theorem expect_overloads (s : state) (this v : val) :
  (is_none s this →
     (∀ m : string,
        let l := fresh (dom (heap s)) in
        heap s !! l = None ∧
        Option.expect this (VString m) s
        = (Throw (VObject l),
           set_heap (<[l := unwrap_error_object (VString m)]> (heap s)) s)) ∧
     (∀ e : loc, Option.expect this (VObject e) s = (Throw (VObject e), s))) ∧
  (is_some s this v →
     ∀ arg, Option.expect this arg s = (Return v, s)).
Proof.
  split; intros H.
  - split.
    + intros m l. split; [apply fresh_unused | by apply expect_none_string].
    + intros e. by apply expect_none_other.
  - intros arg. by apply expect_some.
Qed.

Lemma expect_overloads_witness :
  Option.expect loaded_NONE (VString "Oh noes!") sample_error_state
  = (Throw (VObject 3),
     set_heap (<[3 := unwrap_error_object (VString "Oh noes!")]>
                 (heap sample_error_state)) sample_error_state) ∧
  Option.expect loaded_NONE (VObject 2) sample_error_state
  = (Throw (VObject 2), sample_error_state) ∧
  Option.expect sample_some (VString "Oh noes!") sample_error_state
  = (Return (VNumber 4), sample_error_state).
Proof.
  split; [|split].
  - destruct (proj1 (expect_overloads sample_error_state loaded_NONE VNull))
      as [H _]; [vm_compute; reflexivity|].
    apply (H "Oh noes!").
  - destruct (proj1 (expect_overloads sample_error_state loaded_NONE VNull))
      as [_ H]; [vm_compute; reflexivity|].
    apply (H 2).
  - apply (proj2 (expect_overloads sample_error_state sample_some (VNumber 4))).
    vm_compute. reflexivity.
Defined.

(** C10: the overload is chosen by [typeof]: on a [None] container every
    argument that is not a string, of whatever kind, is thrown as it is
    with the state unchanged, and a string is the only argument wrapped in
    a new [UnwrapError]. *)
Theorem expect_dispatch_on_typeof (s : state) (this arg : val) :
  is_none s this →
  ((∀ m, arg ≠ VString m) → Option.expect this arg s = (Throw arg, s)) ∧
  (∀ m, arg = VString m →
     ∃ l, heap s !! l = None ∧
       Option.expect this arg s
       = (Throw (VObject l),
          set_heap (<[l := unwrap_error_object arg]> (heap s)) s)).
Proof.
  intros H. split.
  - by apply expect_none_other.
  - intros m ->. exists (fresh (dom (heap s))).
    split; [apply fresh_unused | by apply expect_none_string].
Qed.

Lemma expect_dispatch_on_typeof_witness :
  Option.expect loaded_NONE (VNumber 42) sample_state
  = (Throw (VNumber 42), sample_state) ∧
  Option.expect loaded_NONE VUndefined sample_state
  = (Throw VUndefined, sample_state).
Proof.
  split.
  - apply (proj1 (expect_dispatch_on_typeof sample_state loaded_NONE (VNumber 42)
                    ltac:(vm_compute; reflexivity))).
    intros m. discriminate.
  - apply (proj1 (expect_dispatch_on_typeof sample_state loaded_NONE VUndefined
                    ltac:(vm_compute; reflexivity))).
    intros m. discriminate.
Defined.

(** C1, as stated, fails: in the loaded state [NONE.unwrap()] throws an
    error whose message is not the specified text, and [unwrap] differs
    from [expect] called with the specified text. *)
Lemma unwrap_message_counterexample :
  ∃ l s',
    Option.unwrap loaded_NONE loaded_state = (Throw (VObject l), s') ∧
    error_message s' (VObject l) ≠ Some (VString specified_unwrap_message) ∧
    Option.unwrap loaded_NONE loaded_state
    ≠ Option.expect loaded_NONE (VString specified_unwrap_message) loaded_state.
Proof.
  exists 1, (snd (Option.unwrap loaded_NONE loaded_state)).
  split; [vm_compute; reflexivity|]. split.
  - vm_compute. discriminate.
  - intros E. apply (f_equal (fun r => error_message (snd r) (VObject 1))) in E.
    vm_compute in E. discriminate.
Qed.

(** C1, amended: [some(v).unwrap()] returns [v]; [unwrap] on a [None]
    container throws a newly constructed [UnwrapError] whose message is
    exactly ["Tried to call unwrap() on Option.none()"]; and [unwrap] is
    [expect] called with that text. *)
Theorem unwrap_is_expect_with_fixed_message (s : state) (this v : val) :
  Option.unwrap this = Option.expect this (VString unwrap_message) ∧
  (o <- Option.some v ;; Option.unwrap o) s
    = (o <- Option.some v ;; ret v) s ∧
  (is_some s this v → Option.unwrap this s = (Return v, s)) ∧
  (is_none s this →
     let l := fresh (dom (heap s)) in
     heap s !! l = None ∧
     Option.unwrap this s
     = (Throw (VObject l),
        set_heap (<[l := unwrap_error_object (VString unwrap_message)]> (heap s)) s)
     ∧ error_message (snd (Option.unwrap this s)) (VObject l)
       = Some (VString "Tried to call unwrap() on Option.none()")).
Proof.
  split; [reflexivity|]. split; [|split].
  - rewrite !(bind_Return _ _ s _ _ (some_run v s)). unfold Option.unwrap.
    erewrite expect_some; [reflexivity|].
    unfold is_some. simpl. by rewrite lookup_insert_eq.
  - intros H. by apply expect_some.
  - intros H l. split; [apply fresh_unused|].
    unfold Option.unwrap. rewrite (expect_none_string _ _ _ H). split; [done|].
    unfold error_message. simpl. by rewrite lookup_insert_eq.
Qed.

Lemma unwrap_is_expect_with_fixed_message_witness :
  Option.unwrap sample_some sample_state = (Return (VNumber 4), sample_state) ∧
  Option.unwrap loaded_NONE sample_state
  = (Throw (VObject 2),
     set_heap (<[2 := unwrap_error_object (VString unwrap_message)]>
                 (heap sample_state)) sample_state).
Proof.
  split.
  - apply (proj1 (proj2 (proj2
      (unwrap_is_expect_with_fixed_message sample_state sample_some (VNumber 4))))).
    vm_compute. reflexivity.
  - destruct (proj2 (proj2 (proj2
      (unwrap_is_expect_with_fixed_message sample_state loaded_NONE VNull))))
      as (_ & H & _); [vm_compute; reflexivity|].
    exact H.
Defined.

(** ** [xor] *)

(** C7: [a.xor(b)] returns the one of [a] and [b] that is a [Some]
    container when exactly one is, and [NONE] when both or neither is. The
    state is untouched in every case. *)
Theorem xor_table (NONE : val) (s : state) (a b x y : val) :
  (is_some s a x → is_some s b y → OptionImpl.xor NONE a b s = (Return NONE, s)) ∧
  (is_some s a x → is_none s b → OptionImpl.xor NONE a b s = (Return a, s)) ∧
  (is_none s a → is_some s b y → OptionImpl.xor NONE a b s = (Return b, s)) ∧
  (is_none s a → is_none s b → OptionImpl.xor NONE a b s = (Return NONE, s)).
Proof.
  unfold OptionImpl.xor. split; [|split; [|split]]; intros Ha Hb.
  - rewrite (match_some _ _ _ _ Ha). cbn [Matcher.some].
    by rewrite (match_some _ _ _ _ Hb).
  - rewrite (match_some _ _ _ _ Ha). cbn [Matcher.some].
    by rewrite (match_none _ _ _ Hb).
  - rewrite (match_none _ _ _ Ha). cbn [Matcher.none].
    by rewrite (match_some _ _ _ _ Hb).
  - rewrite (match_none _ _ _ Ha). cbn [Matcher.none].
    by rewrite (match_none _ _ _ Hb).
Qed.

Lemma xor_table_witness :
  OptionImpl.xor loaded_NONE (VObject 1) (VObject 2) pair_state
  = (Return loaded_NONE, pair_state) ∧
  OptionImpl.xor loaded_NONE (VObject 1) loaded_NONE pair_state
  = (Return (VObject 1), pair_state) ∧
  OptionImpl.xor loaded_NONE loaded_NONE (VObject 2) pair_state
  = (Return (VObject 2), pair_state) ∧
  OptionImpl.xor loaded_NONE loaded_NONE loaded_NONE pair_state
  = (Return loaded_NONE, pair_state).
Proof.
  split; [|split; [|split]].
  - apply (proj1 (xor_table loaded_NONE pair_state (VObject 1) (VObject 2)
                    (VNumber 1) (VNumber 2))); vm_compute; reflexivity.
  - apply (proj1 (proj2 (xor_table loaded_NONE pair_state (VObject 1) loaded_NONE
                    (VNumber 1) VNull))); vm_compute; reflexivity.
  - apply (proj1 (proj2 (proj2 (xor_table loaded_NONE pair_state loaded_NONE
                    (VObject 2) VNull (VNumber 2))))); vm_compute; reflexivity.
  - apply (proj2 (proj2 (proj2 (xor_table loaded_NONE pair_state loaded_NONE
                    loaded_NONE VNull VNull)))); vm_compute; reflexivity.
Defined.

(** ** Failures of callbacks *)

(** C9: when the callback a combinator invokes throws [e], the combinator
    throws the same [e] and ends in the very state the callback ended in:
    nothing is caught, wrapped, allocated or changed on the way out. This
    holds for [match]'s two callbacks, the mapper of [map], the executors
    of [ifSome] and [ifNone], the thunk of [unwrapOrElse], the flat mapper
    of [andThen], and for [filter]'s predicate and [orElse]'s thunk. *)
Theorem callback_failure_propagates (NONE : val) (s s' : state)
    (this v e : val) (f : list val → M val) :
  (is_some s this v → f [v] s = (Throw e, s') →
     (∀ g, Option.match_ this {| Matcher.none := g; Matcher.some := f |} s
           = (Throw e, s')) ∧
     Option.map this f s = (Throw e, s') ∧
     Option.ifSome this f s = (Throw e, s') ∧
     Option.andThen NONE this f s = (Throw e, s') ∧
     OptionImpl.filter NONE this f s = (Throw e, s')) ∧
  (is_none s this → f [] s = (Throw e, s') →
     (∀ g, Option.match_ this {| Matcher.none := f; Matcher.some := g |} s
           = (Throw e, s')) ∧
     Option.ifNone this f s = (Throw e, s') ∧
     Option.unwrapOrElse this f s = (Throw e, s') ∧
     OptionImpl.orElse this f s = (Throw e, s')).
Proof.
  split; intros H Hf.
  - assert (Hmap : Option.map this f s = (Throw e, s')).
    { unfold Option.map. rewrite (match_some _ _ _ _ H). cbn [Matcher.some].
      by apply bind_Throw. }
    split; [|split; [|split; [|split]]].
    + intros g. by rewrite (match_some _ _ _ _ H).
    + exact Hmap.
    + unfold Option.ifSome. by apply bind_Throw.
    + unfold Option.andThen. by rewrite (match_some _ _ _ _ H).
    + unfold OptionImpl.filter. rewrite (match_some _ _ _ _ H).
      cbn [Matcher.some]. by apply bind_Throw.
  - split; [|split; [|split]].
    + intros g. by rewrite (match_none _ _ _ H).
    + unfold Option.ifNone. rewrite (bind_Return _ _ _ _ _ (isNone_none _ _ H)).
      cbn [truthy]. by apply bind_Throw.
    + unfold Option.unwrapOrElse. by rewrite (match_none _ _ _ H).
    + unfold OptionImpl.orElse. by rewrite (match_none _ _ _ H).
Qed.

Lemma callback_failure_propagates_witness :
  Option.map sample_some failing_callback sample_error_state
  = (Throw (VObject 2), log_call ("failing", [VNumber 4]) sample_error_state) ∧
  Option.unwrapOrElse loaded_NONE failing_callback sample_error_state
  = (Throw (VObject 2), log_call ("failing", []) sample_error_state).
Proof.
  split.
  - destruct (proj1 (callback_failure_propagates loaded_NONE sample_error_state
                 (log_call ("failing", [VNumber 4]) sample_error_state)
                 sample_some (VNumber 4) (VObject 2) failing_callback))
      as (_ & H & _); [vm_compute; reflexivity | reflexivity |].
    exact H.
  - destruct (proj2 (callback_failure_propagates loaded_NONE sample_error_state
                 (log_call ("failing", []) sample_error_state)
                 loaded_NONE VNull (VObject 2) failing_callback))
      as (_ & _ & H & _); [vm_compute; reflexivity | reflexivity |].
    exact H.
Defined.

(** ** [all] *)

Section all_loop.

Variable NONE : val.

(** The state [all] is entered in, and the array it was given. *)
Variable s0 : state.
Variable lo : loc.
Variable os : list val.
Hypothesis Hos : heap s0 !! lo = Some (Arr os).

Local Abbreviation lv := (loop_values s0).
Local Abbreviation st := (loop_state s0).

Lemma loop_frame (l : loc) (ob : object) (acc : list val) :
  heap s0 !! l = Some ob → heap (st acc) !! l = Some ob.
Proof.
  intros H. unfold loop_state. simpl. rewrite lookup_insert_ne; [done|].
  intros <-. unfold loop_values in H. by rewrite fresh_unused in H.
Qed.

Lemma loop_length (acc : list val) :
  array_length (VObject lo) (st acc) = (Return (length os), st acc).
Proof. unfold array_length. by rewrite (loop_frame _ _ _ Hos). Qed.

Lemma loop_get (acc : list val) (i : nat) (o : val) :
  os !! i = Some o → array_get (VObject lo) i (st acc) = (Return o, st acc).
Proof. intros H. unfold array_get. by rewrite (loop_frame _ _ _ Hos), H. Qed.

Lemma loop_push (acc : list val) (v : val) :
  array_push (VObject lv) v (st acc) = (Return tt, st (acc ++ [v])).
Proof.
  unfold array_push, loop_state, set_heap. simpl. rewrite lookup_insert_eq.
  by rewrite insert_insert_eq.
Qed.

Lemma loop_isSome_some (acc : list val) (o v : val) :
  is_some s0 o v →
  Option.call_isSome o (st acc) = (Return (VBoolean true), st acc)
  ∧ get_prop o "value" (st acc) = (Return v, st acc).
Proof.
  intros (l & -> & H)%is_some_inv.
  assert (H' := loop_frame _ _ acc H).
  unfold Option.call_isSome, Option.isSome, Option.isNone, bind, get_prop.
  by rewrite H'.
Qed.

Lemma loop_isSome_none (acc : list val) (o : val) :
  is_none s0 o →
  Option.call_isSome o (st acc) = (Return (VBoolean false), st acc).
Proof.
  intros (l & -> & H)%is_none_inv.
  assert (H' := loop_frame _ _ acc H).
  unfold Option.call_isSome, Option.isSome, Option.isNone, bind, get_prop.
  by rewrite H'.
Qed.

(** Past the last index the loop is left and [values] is wrapped. *)
Lemma loop_exit (fuel i : nat) (acc : list val) :
  length os ≤ i →
  Option.all_loop NONE fuel (VObject lo) (VObject lv) i (st acc)
  = Option.some (VObject lv) (st acc).
Proof.
  intros Hi.
  assert (E : (i <? length os) = false) by (apply Nat.ltb_ge; lia).
  destruct fuel; simpl;
    by rewrite (bind_Return _ _ _ _ _ (loop_length acc)), E.
Qed.

(** One iteration on a [Some] element pushes its payload and goes on. *)
Lemma loop_step_some (fuel i : nat) (acc : list val) (o v : val) :
  os !! i = Some o → is_some s0 o v →
  Option.all_loop NONE (S fuel) (VObject lo) (VObject lv) i (st acc)
  = Option.all_loop NONE fuel (VObject lo) (VObject lv) (S i) (st (acc ++ [v])).
Proof.
  intros Hi Ho.
  assert (E : (i <? length os) = true).
  { apply Nat.ltb_lt. by eapply lookup_lt_Some. }
  destruct (loop_isSome_some acc o v Ho) as [Hb Hv].
  cbn [Option.all_loop].
  rewrite (bind_Return _ _ _ _ _ (loop_length acc)), E.
  rewrite (bind_Return _ _ _ _ _ (loop_get acc i o Hi)).
  rewrite (bind_Return _ _ _ _ _ Hb). cbn [truthy].
  rewrite (bind_Return _ _ _ _ _ Hv).
  by rewrite (bind_Return _ _ _ _ _ (loop_push acc v)).
Qed.

(** One iteration on a [None] element returns [NONE] at once. *)
Lemma loop_step_none (fuel i : nat) (acc : list val) (o : val) :
  os !! i = Some o → is_none s0 o →
  Option.all_loop NONE (S fuel) (VObject lo) (VObject lv) i (st acc)
  = (Return NONE, st acc).
Proof.
  intros Hi Ho.
  assert (E : (i <? length os) = true).
  { apply Nat.ltb_lt. by eapply lookup_lt_Some. }
  cbn [Option.all_loop].
  rewrite (bind_Return _ _ _ _ _ (loop_length acc)), E.
  rewrite (bind_Return _ _ _ _ _ (loop_get acc i o Hi)).
  by rewrite (bind_Return _ _ _ _ _ (loop_isSome_none acc o Ho)).
Qed.

(** The loop over a run of [Some] elements, from any index on. *)
Lemma loop_run_some (todo vs : list val) :
  Forall2 (is_some s0) todo vs →
  ∀ (done acc : list val) (rest : list val) (fuel : nat),
    os = done ++ todo ++ rest →
    Option.all_loop NONE (length todo + fuel) (VObject lo) (VObject lv)
      (length done) (st acc)
    = Option.all_loop NONE fuel (VObject lo) (VObject lv)
        (length (done ++ todo)) (st (acc ++ vs)).
Proof.
  induction 1 as [|o v todo vs Ho _ IH]; intros done acc rest fuel Hsplit.
  - by rewrite !app_nil_r.
  - cbn [length Nat.add].
    rewrite (loop_step_some _ _ _ o v); [|by rewrite Hsplit; apply list_lookup_middle|done].
    replace (S (length done)) with (length (done ++ [o]))
      by (rewrite length_app; simpl; lia).
    rewrite (IH (done ++ [o]) (acc ++ [v]) rest fuel).
    + by rewrite <- !app_assoc.
    + by rewrite Hsplit, <- app_assoc.
Qed.

End all_loop.

Lemma new_Array_run (s : state) :
  new_Array s = (Return (VObject (loop_values s)), loop_state s []).
Proof. reflexivity. Qed.

(** The factory's [optionDotAll] is the class's [all]: the two loops are
    the same text, and [OptionImpl]'s statics are the class's. *)
Lemma optionDotAll_all (NONE : val) (fuel : nat) (options : val) :
  optionDotAll NONE fuel options = Option.all NONE fuel options.
Proof. reflexivity. Qed.

Lemma all_of_somes (NONE : val) (s : state) (lo : loc) (os vs : list val)
    (fuel : nat) :
  heap s !! lo = Some (Arr os) →
  Forall2 (is_some s) os vs → length os ≤ fuel →
  let lv := fresh (dom (heap s)) in
  let h := <[lv := Arr vs]> (heap s) in
  Option.all NONE fuel (VObject lo) s
  = (Return (VObject (fresh (dom h))),
     set_heap (<[fresh (dom h) := some_object (VObject lv)]> h) s).
Proof.
  intros Hos Hall Hfuel lv h. unfold Option.all.
  rewrite (bind_Return _ _ _ _ _ (new_Array_run s)).
  replace fuel with (length os + (fuel - length os)) by lia.
  pose proof (loop_run_some NONE s lo os Hos os vs Hall [] [] []
                (fuel - length os)) as Hrun.
  cbn [length app] in Hrun. rewrite Hrun; [|by rewrite app_nil_r].
  rewrite (loop_exit NONE s lo os Hos); [|done].
  by rewrite some_run.
Qed.

Lemma all_with_none (NONE : val) (s : state) (lo : loc)
    (pre vs : list val) (n : val) (rest : list val) (fuel : nat) :
  heap s !! lo = Some (Arr (pre ++ n :: rest)) →
  Forall2 (is_some s) pre vs → is_none s n → length pre < fuel →
  Option.all NONE fuel (VObject lo) s
  = (Return NONE, set_heap (<[fresh (dom (heap s)) := Arr vs]> (heap s)) s).
Proof.
  intros Hos Hall Hn Hfuel. unfold Option.all.
  rewrite (bind_Return _ _ _ _ _ (new_Array_run s)).
  replace fuel with (length pre + S (fuel - S (length pre))) by lia.
  pose proof (loop_run_some NONE s lo _ Hos pre vs Hall [] [] (n :: rest)
                (S (fuel - S (length pre)))) as Hrun.
  cbn [length app] in Hrun. rewrite Hrun; [|done].
  rewrite (loop_step_none NONE s lo _ Hos _ _ _ n); [done| |done].
  by apply list_lookup_middle.
Qed.

(** C2: [all] scans its argument in order. If an element is a [None]
    container and all before it are [Some] containers, the result is
    [NONE], whatever the later elements are (they need not even be
    containers), and the only trace of the call is the local array holding
    the payloads met before. If every element is a [Some] container, the
    result is a new [Some] container wrapping a new array of the payloads
    in the order of the input; for the empty array that is [some([])],
    with no fuel needed. The factory's [optionDotAll] does the same. *)
Theorem all_scans_in_order (NONE : val) (s : state) (lo : loc) (fuel : nat) :
  let lv := fresh (dom (heap s)) in
  (∀ pre vs n rest,
     heap s !! lo = Some (Arr (pre ++ n :: rest)) →
     Forall2 (is_some s) pre vs → is_none s n → length pre < fuel →
     Option.all NONE fuel (VObject lo) s
     = (Return NONE, set_heap (<[lv := Arr vs]> (heap s)) s)) ∧
  (∀ os vs,
     heap s !! lo = Some (Arr os) →
     Forall2 (is_some s) os vs → length os ≤ fuel →
     let h := <[lv := Arr vs]> (heap s) in
     Option.all NONE fuel (VObject lo) s
     = (Return (VObject (fresh (dom h))),
        set_heap (<[fresh (dom h) := some_object (VObject lv)]> h) s)) ∧
  (heap s !! lo = Some (Arr []) →
     let h := <[lv := Arr []]> (heap s) in
     Option.all NONE fuel (VObject lo) s
     = (Return (VObject (fresh (dom h))),
        set_heap (<[fresh (dom h) := some_object (VObject lv)]> h) s)) ∧
  (∀ options, optionDotAll NONE fuel options s = Option.all NONE fuel options s).
Proof.
  intros lv. split; [|split; [|split]].
  - intros pre vs n rest. apply all_with_none.
  - intros os vs. apply all_of_somes.
  - intros Hos h. destruct fuel.
    + unfold Option.all. rewrite (bind_Return _ _ _ _ _ (new_Array_run s)).
      rewrite (loop_exit NONE s lo [] Hos); [|done]. by rewrite some_run.
    + apply (all_of_somes NONE s lo [] []); [done|constructor|simpl; lia].
  - intros options. by rewrite optionDotAll_all.
Qed.

Lemma all_scans_in_order_witness :
  Option.all loaded_NONE 3 (VObject 3) all_state
  = (Return loaded_NONE, set_heap (<[5 := Arr [VNumber 1]]> (heap all_state)) all_state) ∧
  Option.all loaded_NONE 3 (VObject 4) all_state
  = (Return (VObject 6),
     set_heap (<[6 := some_object (VObject 5)]>
                 (<[5 := Arr [VNumber 1; VNumber 2]]> (heap all_state))) all_state).
Proof.
  split.
  - apply (proj1 (all_scans_in_order loaded_NONE all_state 3 3)
             [VObject 1] [VNumber 1] loaded_NONE [VObject 2]).
    + vm_compute. reflexivity.
    + repeat constructor.
    + vm_compute. reflexivity.
    + simpl. lia.
  - apply (proj1 (proj2 (all_scans_in_order loaded_NONE all_state 4 3))
             [VObject 1; VObject 2] [VNumber 1; VNumber 2]).
    + vm_compute. reflexivity.
    + repeat constructor.
    + simpl. lia.
Defined.

(** ** The canonical [None] *)

Section preservation.

Variable NONE : val.

Lemma preserves_ret {A} (a : A) : preserves NONE (ret a).
Proof. by intros s H. Qed.

Lemma preserves_throw {A} (e : val) : preserves NONE (@throw A e).
Proof. by intros s H. Qed.

Lemma preserves_bind {A B} (m : M A) (k : A → M B) :
  preserves NONE m → (∀ a, preserves NONE (k a)) → preserves NONE (bind m k).
Proof.
  intros Hm Hk s H. unfold bind. specialize (Hm s H).
  destruct (m s) as [[a|e|] s1]; simpl in *; [by apply Hk|done|done].
Qed.

Lemma preserves_alloc (ob : object) :
  tagged_none ob = false → preserves NONE (alloc ob).
Proof.
  intros Hob s H l ob' Hl Ht. simpl in Hl.
  destruct (decide (fresh (dom (heap s)) = l)) as [<-|Hne].
  - rewrite lookup_insert_eq in Hl. congruence.
  - rewrite lookup_insert_ne in Hl by done. by eapply H.
Qed.

Lemma preserves_throw_TypeError {A} (message : string) :
  preserves NONE (@throw_TypeError A message).
Proof.
  apply preserves_bind; [by apply preserves_alloc|].
  intros e. apply preserves_throw.
Qed.

Lemma preserves_get_prop (o : val) (k : string) : preserves NONE (get_prop o k).
Proof.
  destruct o; simpl;
    try apply preserves_ret; try apply preserves_throw_TypeError.
  intros s H. destruct (heap s !! l) as [[p f|es]|] eqn:E; try done.
  by apply (preserves_throw_TypeError (A := val)).
Qed.

(** An assignment keeps the heap canonical unless it sets the tag. *)
Lemma preserves_set_prop (o : val) (k : string) (v : val) :
  k ≠ "isNone_" ∨ truthy v = false → preserves NONE (set_prop o k v).
Proof.
  intros Hk. destruct o; simpl; try apply preserves_throw_TypeError.
  intros s H. destruct (heap s !! l) as [[p f|es]|] eqn:E;
    try by apply (preserves_throw_TypeError (A := unit)).
  intros l' ob Hl Ht. simpl in Hl.
  destruct (decide (l = l')) as [<-|Hne].
  - rewrite lookup_insert_eq in Hl. injection Hl as <-.
    apply (H l (Obj p f) E). destruct p; try done. simpl in *.
    destruct Hk as [Hk|Hv].
    + by rewrite lookup_insert_ne in Ht.
    + destruct (decide (k = "isNone_")) as [->|Hk].
      * rewrite lookup_insert_eq in Ht. simpl in Ht. congruence.
      * by rewrite lookup_insert_ne in Ht.
  - rewrite lookup_insert_ne in Hl by done. by eapply H.
Qed.

Lemma preserves_array_length (a : val) : preserves NONE (array_length a).
Proof.
  destruct a; simpl; try apply preserves_throw_TypeError.
  intros s H. destruct (heap s !! l) as [[p f|es]|] eqn:E; try done;
    by apply (preserves_throw_TypeError (A := nat)).
Qed.

Lemma preserves_array_get (a : val) (i : nat) : preserves NONE (array_get a i).
Proof.
  destruct a; simpl; try apply preserves_throw_TypeError.
  intros s H. destruct (heap s !! l) as [[p f|es]|] eqn:E; try done;
    by apply (preserves_throw_TypeError (A := val)).
Qed.

Lemma preserves_array_push (a v : val) : preserves NONE (array_push a v).
Proof.
  destruct a; simpl; try apply preserves_throw_TypeError.
  intros s H. destruct (heap s !! l) as [[p f|es]|] eqn:E;
    try by apply (preserves_throw_TypeError (A := unit)).
  intros l' ob Hl Ht. simpl in Hl.
  destruct (decide (l = l')) as [<-|Hne].
  - rewrite lookup_insert_eq in Hl. by injection Hl as <-.
  - rewrite lookup_insert_ne in Hl by done. by eapply H.
Qed.

End preservation.

(** Splits a computation at its binds and closes the primitive steps. *)
Ltac preserves_steps :=
  repeat first
    [ apply preserves_ret
    | apply preserves_throw
    | apply preserves_throw_TypeError
    | apply preserves_get_prop
    | apply preserves_array_length
    | apply preserves_array_get
    | apply preserves_array_push
    | apply preserves_alloc; reflexivity
    | apply preserves_set_prop; solve [by left | by right]
    | apply preserves_bind; [|intros ?] ].

Section class_preservation.

Variable NONE : val.

Lemma preserves_some (v : val) : preserves NONE (Option.some v).
Proof. unfold Option.some, Object_create. preserves_steps. Qed.

Lemma preserves_new_UnwrapError (message : val) :
  preserves NONE (new_UnwrapError message).
Proof.
  unfold new_UnwrapError, Error_constructor, Object_create. preserves_steps.
Qed.

Lemma preserves_isSome (this : val) : preserves NONE (Option.isSome this).
Proof. unfold Option.isSome, Option.isNone. preserves_steps. Qed.

Lemma preserves_call_isSome (o : val) : preserves NONE (Option.call_isSome o).
Proof.
  destruct o; simpl; try apply preserves_throw_TypeError.
  intros s H. destruct (heap s !! l) as [[[] f|es]|] eqn:E;
    try by apply (preserves_throw_TypeError NONE (A := val)).
  by apply preserves_isSome.
Qed.

Lemma preserves_match (this : val) (matcher : Matcher.t) :
  (∀ args, preserves NONE (Matcher.none matcher args)) →
  (∀ args, preserves NONE (Matcher.some matcher args)) →
  preserves NONE (Option.match_ this matcher).
Proof.
  intros Hn Hs. unfold Option.match_, Option.isNone.
  apply preserves_bind; [preserves_steps|]. intros b.
  destruct (truthy b); [done|]. apply preserves_bind; [preserves_steps|done].
Qed.

Lemma preserves_all_loop (fuel : nat) :
  ∀ (options values : val) (i : nat),
    preserves NONE (Option.all_loop NONE fuel options values i).
Proof.
  induction fuel as [|fuel IH]; intros options values i;
    cbn [Option.all_loop];
    (apply preserves_bind; [preserves_steps|]); intros len;
    (destruct (i <? len); [|apply preserves_some]).
  - by intros s H.
  - apply preserves_bind; [preserves_steps|]. intros o.
    apply preserves_bind; [apply preserves_call_isSome|]. intros b.
    destruct (truthy b); [|apply preserves_ret].
    apply preserves_bind; [preserves_steps|]. intros v.
    apply preserves_bind; [preserves_steps|]. intros _. apply IH.
Qed.

Lemma preserves_all (fuel : nat) (options : val) :
  preserves NONE (Option.all NONE fuel options).
Proof.
  unfold Option.all, new_Array.
  apply preserves_bind; [preserves_steps|]. intros values.
  apply preserves_all_loop.
Qed.

Lemma preserves_expect (this message : val) :
  preserves NONE (Option.expect this message).
Proof.
  unfold Option.expect. apply preserves_match; intros args; cbn [Matcher.none Matcher.some].
  - apply preserves_bind; [|intros e; apply preserves_throw].
    destruct (String.eqb "string" (typeof message));
      [apply preserves_new_UnwrapError | apply preserves_ret].
  - apply preserves_ret.
Qed.

Lemma preserves_map (this : val) (mapper : list val → M val) :
  (∀ args, preserves NONE (mapper args)) →
  preserves NONE (Option.map this mapper).
Proof.
  intros Hf. unfold Option.map.
  apply preserves_match; intros args; cbn [Matcher.none Matcher.some].
  - apply preserves_ret.
  - apply preserves_bind; [done|]. intros r. apply preserves_some.
Qed.

Lemma preserves_andThen (this : val) (flatMapper : list val → M val) :
  (∀ args, preserves NONE (flatMapper args)) →
  preserves NONE (Option.andThen NONE this flatMapper).
Proof.
  intros Hf. unfold Option.andThen.
  apply preserves_match; intros args; cbn [Matcher.none Matcher.some];
    [apply preserves_ret | done].
Qed.

End class_preservation.

(** Loading the module on a heap without [None]-tagged objects makes the
    new object the canonical one. *)
Lemma NONE_init_canonical (s : state) :
  no_none s →
  let N := VObject (fresh (dom (heap s))) in
  NONE_init s = (Return N, snd (NONE_init s)) ∧
  is_none (snd (NONE_init s)) N ∧ canonical N (snd (NONE_init s)).
Proof.
  intros H N. rewrite NONE_init_run. simpl. split; [done|]. split.
  - unfold is_none. simpl. by rewrite lookup_insert_eq.
  - intros l ob Hl Ht. simpl in Hl.
    destruct (decide (fresh (dom (heap s)) = l)) as [<-|Hne]; [done|].
    rewrite lookup_insert_ne in Hl by done.
    rewrite (H l ob Hl) in Ht. discriminate.
Qed.

Lemma none_object_tagged : tagged_none none_object = true.
Proof. reflexivity. Qed.

Lemma canonical_unique (NONE : val) (s : state) (a : val) :
  canonical NONE s → is_none s a → a = NONE.
Proof.
  intros H (l & -> & Hl)%is_none_inv. symmetry.
  apply (H l none_object Hl none_object_tagged).
Qed.

(** C5: there is one [None] container. [none()] returns the reference
    [NONE] in every state and changes nothing; [andThen] on a [None]
    receiver and [all] on an array with a [None] element return that same
    reference. Loading the module on a heap without [None]-tagged objects
    makes the heap canonical (the only object tagged [None] is the one
    [NONE] refers to), and [some], [all], [expect], [map] and [andThen]
    keep it canonical (the last two when their callback does). In a
    canonical heap any two [None] containers are the same reference,
    [NONE], hence also equal as objects, and [map] on one returns [NONE]. *)
Theorem none_is_a_single_instance (NONE : val) :
  (∀ s, Option.none NONE s = (Return NONE, s)) ∧
  (∀ s this f,
     is_none s this → Option.andThen NONE this f s = (Return NONE, s)) ∧
  (∀ s lo pre vs n rest fuel,
     heap s !! lo = Some (Arr (pre ++ n :: rest)) →
     Forall2 (is_some s) pre vs → is_none s n → length pre < fuel →
     fst (Option.all NONE fuel (VObject lo) s) = Return NONE) ∧
  (∀ s a b,
     canonical NONE s → is_none s a → is_none s b →
     a = b ∧ a = NONE ∧ deref s a = deref s b) ∧
  (∀ s this f,
     canonical NONE s → is_none s this →
     Option.map this f s = (Return NONE, s)) ∧
  (∀ s,
     no_none s →
     let N := VObject (fresh (dom (heap s))) in
     NONE_init s = (Return N, snd (NONE_init s)) ∧
     is_none (snd (NONE_init s)) N ∧ canonical N (snd (NONE_init s))) ∧
  (∀ v, preserves NONE (Option.some v)) ∧
  (∀ fuel options, preserves NONE (Option.all NONE fuel options)) ∧
  (∀ this arg, preserves NONE (Option.expect this arg)) ∧
  (∀ this f,
     (∀ args, preserves NONE (f args)) →
     preserves NONE (Option.map this f) ∧
     preserves NONE (Option.andThen NONE this f)).
Proof.
  split; [done|]. split.
  { intros s this f H. unfold Option.andThen. by rewrite (match_none _ _ _ H). }
  split.
  { intros s lo pre vs n rest fuel Hos Hall Hn Hfuel.
    by rewrite (all_with_none NONE s lo pre vs n rest fuel). }
  split.
  { intros s a b H Ha Hb.
    rewrite (canonical_unique NONE s a H Ha), (canonical_unique NONE s b H Hb).
    done. }
  split.
  { intros s this f H Hthis. unfold Option.map.
    rewrite (match_none _ _ _ Hthis). cbn [Matcher.none].
    by rewrite (canonical_unique NONE s this H Hthis). }
  split; [exact NONE_init_canonical|].
  split; [apply preserves_some|].
  split; [apply preserves_all|].
  split; [apply preserves_expect|].
  intros this f Hf. split; [by apply preserves_map | by apply preserves_andThen].
Qed.

Lemma none_is_a_single_instance_witness :
  canonical loaded_NONE sample_state ∧
  Option.andThen loaded_NONE loaded_NONE failing_callback sample_state
  = (Return loaded_NONE, sample_state) ∧
  Option.map loaded_NONE failing_callback sample_state
  = (Return loaded_NONE, sample_state).
Proof.
  assert (Hcan : canonical loaded_NONE sample_state).
  { destruct (none_is_a_single_instance loaded_NONE)
      as (_ & _ & _ & _ & _ & Hinit & Hsome & _).
    apply (Hsome (VNumber 4) loaded_state).
    destruct (Hinit (mkState ∅ [])) as (_ & _ & H); [|exact H].
    intros l ob Hl. simpl in Hl. by rewrite lookup_empty in Hl. }
  split; [exact Hcan|]. split.
  - destruct (none_is_a_single_instance loaded_NONE) as (_ & H & _).
    apply H. vm_compute. reflexivity.
  - destruct (none_is_a_single_instance loaded_NONE)
      as (_ & _ & _ & _ & H & _).
    apply H; [exact Hcan | vm_compute; reflexivity].
Defined.

(** * Further properties of the class *)

(** ** [isSome] and [isNone] *)

(** X1: a [Some] container answers [isSome] with [true] and [isNone] with
    [false], a [None] container the other way round, and neither query
    changes the state. The payload plays no part: the container [some(v)]
    has just built is a [Some] for every [v], be it [null], [undefined] or
    [NONE] itself. *)
Theorem tag_queries (s : state) (this v : val) :
  (is_some s this v →
     Option.isSome this s = (Return (VBoolean true), s) ∧
     Option.isNone this s = (Return (VBoolean false), s)) ∧
  (is_none s this →
     Option.isSome this s = (Return (VBoolean false), s) ∧
     Option.isNone this s = (Return (VBoolean true), s)) ∧
  (o <- Option.some v ;; Option.isSome o) s
    = (o <- Option.some v ;; ret (VBoolean true)) s ∧
  (o <- Option.some v ;; Option.isNone o) s
    = (o <- Option.some v ;; ret (VBoolean false)) s.
Proof.
  assert (Hnew : is_some (snd (Option.some v s))
                   (VObject (fresh (dom (heap s)))) v).
  { rewrite some_run. unfold is_some. simpl. by rewrite lookup_insert_eq. }
  rewrite some_run in Hnew. cbn [snd] in Hnew.
  split; [|split; [|split]].
  - intros H. split; [|by apply (isNone_some _ _ v)].
    unfold Option.isSome. by rewrite (bind_Return _ _ _ _ _ (isNone_some _ _ _ H)).
  - intros H. split; [|by apply isNone_none].
    unfold Option.isSome. by rewrite (bind_Return _ _ _ _ _ (isNone_none _ _ H)).
  - rewrite !(bind_Return _ _ s _ _ (some_run v s)). unfold Option.isSome.
    by rewrite (bind_Return _ _ _ _ _ (isNone_some _ _ _ Hnew)).
  - rewrite !(bind_Return _ _ s _ _ (some_run v s)).
    by rewrite (isNone_some _ _ _ Hnew).
Qed.

Lemma tag_queries_witness :
  Option.isSome sample_some sample_state = (Return (VBoolean true), sample_state) ∧
  Option.isNone loaded_NONE sample_state = (Return (VBoolean true), sample_state).
Proof.
  split.
  - apply (proj1 (tag_queries sample_state sample_some (VNumber 4))).
    vm_compute. reflexivity.
  - apply (proj1 (proj2 (tag_queries sample_state loaded_NONE VNull))).
    vm_compute. reflexivity.
Defined.

(** ** [some] *)

(** X2: [some] returns a reference that was unused before the call, so two
    calls never return the same reference, not even for the same payload
    (unlike [none()]); the second call leaves the first container as it
    is, and what was in the heap before stays there unchanged. *)
Theorem some_is_fresh (s : state) (v w : val) :
  ∃ (la lb : loc) (s' : state),
    (a <- Option.some v ;; b <- Option.some w ;; ret (a, b)) s
    = (Return (VObject la, VObject lb), s') ∧
    la ≠ lb ∧
    heap s !! la = None ∧ heap s !! lb = None ∧
    is_some s' (VObject la) v ∧ is_some s' (VObject lb) w ∧
    (∀ l ob, heap s !! l = Some ob → heap s' !! l = Some ob) ∧
    calls s' = calls s.
Proof.
  set (la := fresh (dom (heap s))).
  set (s1 := set_heap (<[la := some_object v]> (heap s)) s).
  set (lb := fresh (dom (heap s1))).
  set (s2 := set_heap (<[lb := some_object w]> (heap s1)) s1).
  assert (Hla : heap s !! la = None) by apply fresh_unused.
  assert (Hlb : heap s1 !! lb = None) by apply fresh_unused.
  assert (Hne : la ≠ lb).
  { intros E. rewrite <- E in Hlb. unfold s1 in Hlb. simpl in Hlb.
    by rewrite lookup_insert_eq in Hlb. }
  exists la, lb, s2. split.
  { rewrite (bind_Return _ _ s _ _ (some_run v s)).
    by rewrite (bind_Return _ _ _ _ _ (some_run w _)). }
  split; [done|]. split; [done|]. split.
  { unfold s1 in Hlb. simpl in Hlb. by rewrite lookup_insert_ne in Hlb. }
  split.
  { unfold is_some, s2, s1. simpl.
    rewrite lookup_insert_ne by done. by rewrite lookup_insert_eq. }
  split.
  { unfold is_some, s2. simpl. by rewrite lookup_insert_eq. }
  split; [|done].
  intros l ob Hl. unfold s2, s1. simpl.
  rewrite lookup_insert_ne by (intros <-; unfold s1 in Hlb; simpl in Hlb;
    destruct (decide (la = lb)) as [|Hd]; [done|];
    rewrite lookup_insert_ne in Hlb by done; congruence).
  rewrite lookup_insert_ne by (intros <-; congruence). done.
Qed.

(** ** [unwrapOr] and [unwrapOrElse] *)

(** X3: [unwrapOr] never throws and never changes the state: it returns
    the payload of a [Some] container, whatever the default, and the
    default on a [None] container. *)
Theorem unwrapOr_returns (s : state) (this v defaultValue : val) :
  (is_some s this v → Option.unwrapOr this defaultValue s = (Return v, s)) ∧
  (is_none s this →
     Option.unwrapOr this defaultValue s = (Return defaultValue, s)).
Proof.
  unfold Option.unwrapOr. split; intros H.
  - by rewrite (match_some _ _ _ _ H).
  - by rewrite (match_none _ _ _ H).
Qed.

Lemma unwrapOr_returns_witness :
  Option.unwrapOr sample_some (VNumber (-19)) sample_state
  = (Return (VNumber 4), sample_state) ∧
  Option.unwrapOr loaded_NONE (VNumber (-19)) sample_state
  = (Return (VNumber (-19)), sample_state).
Proof.
  split.
  - apply (proj1 (unwrapOr_returns sample_state sample_some (VNumber 4)
                    (VNumber (-19)))).
    vm_compute. reflexivity.
  - apply (proj2 (unwrapOr_returns sample_state loaded_NONE VNull
                    (VNumber (-19)))).
    vm_compute. reflexivity.
Defined.

(** X4: [unwrapOrElse] is lazy: on a [Some] container it returns the
    payload and the state is untouched for every thunk, so the thunk is
    never called; on a [None] container it is exactly the call of the
    thunk with no arguments, and an instrumented thunk records one call. *)
Theorem unwrapOrElse_is_lazy (s : state) (this v : val) :
  (is_some s this v →
     ∀ thunk, Option.unwrapOrElse this thunk s = (Return v, s)) ∧
  (is_none s this →
     (∀ thunk, Option.unwrapOrElse this thunk s = thunk [] s) ∧
     (∀ impl,
        Option.unwrapOrElse this (jest_fn "thunk" impl) s
        = (Return (impl []), log_call ("thunk", []) s))).
Proof.
  unfold Option.unwrapOrElse. split; intros H.
  - intros thunk. by rewrite (match_some _ _ _ _ H).
  - split; intros; by rewrite (match_none _ _ _ H).
Qed.

Lemma unwrapOrElse_is_lazy_witness :
  Option.unwrapOrElse sample_some failing_callback sample_state
  = (Return (VNumber 4), sample_state) ∧
  Option.unwrapOrElse loaded_NONE (jest_fn "thunk" (fun _ => VNumber (-19)))
    sample_state
  = (Return (VNumber (-19)), log_call ("thunk", []) sample_state).
Proof.
  split.
  - apply (proj1 (unwrapOrElse_is_lazy sample_state sample_some (VNumber 4))).
    vm_compute. reflexivity.
  - destruct (proj2 (unwrapOrElse_is_lazy sample_state loaded_NONE VNull))
      as [_ H]; [vm_compute; reflexivity|].
    apply (H (fun _ => VNumber (-19))).
Defined.

(** ** [ifSome] and [ifNone] *)

(** X5: [ifSome] always returns [undefined]. On a [None] container it does
    nothing at all and never calls the executor. On a [Some] container it
    calls the executor with the payload and, being [this.map(executor)],
    leaves behind one new container that wraps what the executor
    returned; an executor that throws makes [ifSome] throw the same. *)
Theorem ifSome_runs_on_some (s : state) (this v : val) :
  (is_none s this → ∀ executor,
     Option.ifSome this executor s = (Return VUndefined, s)) ∧
  (is_some s this v →
     (∀ executor r s', executor [v] s = (Return r, s') →
        Option.ifSome this executor s
        = (Return VUndefined,
           set_heap (<[fresh (dom (heap s')) := some_object r]> (heap s')) s')) ∧
     (∀ impl,
        calls (snd (Option.ifSome this (jest_fn "executor" impl) s))
        = calls s ++ [("executor", [v])])).
Proof.
  unfold Option.ifSome, Option.map. split; intros H.
  - intros executor. by rewrite (bind_Return _ _ s this s);
      [|by rewrite (match_none _ _ _ H)].
  - assert (E : ∀ executor r s', executor [v] s = (Return r, s') →
        Option.ifSome this executor s
        = (Return VUndefined,
           set_heap (<[fresh (dom (heap s')) := some_object r]> (heap s')) s')).
    { intros executor r s' He. unfold Option.ifSome, Option.map.
      erewrite bind_Return; [reflexivity|].
      rewrite (match_some _ _ _ _ H). cbn [Matcher.some].
      rewrite (bind_Return _ _ _ _ _ He). apply some_run. }
    split; [exact E|]. intros impl.
    fold (Option.map this (jest_fn "executor" impl)).
    fold (Option.ifSome this (jest_fn "executor" impl)).
    by rewrite (E (jest_fn "executor" impl) (impl [v])
                  (log_call ("executor", [v]) s)).
Qed.

Lemma ifSome_runs_on_some_witness :
  Option.ifSome loaded_NONE failing_callback sample_state
  = (Return VUndefined, sample_state) ∧
  calls (snd (Option.ifSome sample_some (jest_fn "executor" arg0) sample_state))
  = [("executor", [VNumber 4])].
Proof.
  split.
  - apply (proj1 (ifSome_runs_on_some sample_state loaded_NONE VNull)).
    vm_compute. reflexivity.
  - destruct (proj2 (ifSome_runs_on_some sample_state sample_some (VNumber 4)))
      as [_ H]; [vm_compute; reflexivity|].
    apply (H arg0).
Defined.

(** X6: [ifNone] always returns [undefined]. On a [Some] container it does
    nothing and never calls the executor. On a [None] container it calls
    the executor once, with no arguments, drops its result and ends in the
    state the executor ended in. *)
Theorem ifNone_runs_on_none (s : state) (this v : val) :
  (is_some s this v → ∀ executor,
     Option.ifNone this executor s = (Return VUndefined, s)) ∧
  (is_none s this →
     (∀ executor r s', executor [] s = (Return r, s') →
        Option.ifNone this executor s = (Return VUndefined, s')) ∧
     (∀ impl,
        Option.ifNone this (jest_fn "executor" impl) s
        = (Return VUndefined, log_call ("executor", []) s))).
Proof.
  unfold Option.ifNone. split; intros H.
  - intros executor. by rewrite (bind_Return _ _ _ _ _ (isNone_some _ _ _ H)).
  - split.
    + intros executor r s' He.
      rewrite (bind_Return _ _ _ _ _ (isNone_none _ _ H)). cbn [truthy].
      by rewrite (bind_Return _ _ _ _ _ He).
    + intros impl.
      by rewrite (bind_Return _ _ _ _ _ (isNone_none _ _ H)).
Qed.

Lemma ifNone_runs_on_none_witness :
  Option.ifNone sample_some failing_callback sample_state
  = (Return VUndefined, sample_state) ∧
  Option.ifNone loaded_NONE (jest_fn "executor" arg0) sample_state
  = (Return VUndefined, log_call ("executor", []) sample_state).
Proof.
  split.
  - apply (proj1 (ifNone_runs_on_none sample_state sample_some (VNumber 4))).
    vm_compute. reflexivity.
  - destruct (proj2 (ifNone_runs_on_none sample_state loaded_NONE VNull))
      as [_ H]; [vm_compute; reflexivity|].
    apply (H arg0).
Defined.

(** ** More on [all] *)

Lemma throw_TypeError_run {A} (message : string) (s : state) :
  ∃ fields,
    @throw_TypeError A message s
    = (Throw (VObject (fresh (dom (heap s)))),
       set_heap (<[fresh (dom (heap s)) := Obj TypeErrorProto fields]> (heap s)) s).
Proof. by eexists. Qed.

Section all_loop_nullish.

Variable NONE : val.
Variable s0 : state.
Variable lo : loc.
Variable os : list val.
Hypothesis Hos : heap s0 !! lo = Some (Arr os).

Local Abbreviation lv := (loop_values s0).
Local Abbreviation st := (loop_state s0).

(** One iteration on [null] or [undefined] ends the loop with a new
    [TypeError]: there is no [isSome] to call. *)
Lemma loop_step_nullish (fuel i : nat) (acc : list val) (o : val) :
  os !! i = Some o → o = VNull ∨ o = VUndefined →
  ∃ fields,
    Option.all_loop NONE (S fuel) (VObject lo) (VObject lv) i (st acc)
    = (Throw (VObject (fresh (dom (heap (st acc))))),
       set_heap (<[fresh (dom (heap (st acc))) := Obj TypeErrorProto fields]>
                   (heap (st acc))) (st acc)).
Proof.
  intros Hi Ho.
  assert (E : (i <? length os) = true).
  { apply Nat.ltb_lt. by eapply lookup_lt_Some. }
  destruct (throw_TypeError_run (A := val) "option.isSome is not a function"
              (st acc)) as [fields Hthrow].
  exists fields. cbn [Option.all_loop].
  rewrite (bind_Return _ _ _ _ _ (loop_length _ _ _ Hos acc)), E.
  rewrite (bind_Return _ _ _ _ _ (loop_get _ _ _ Hos acc i o Hi)).
  apply bind_Throw. by destruct Ho as [-> | ->].
Qed.

End all_loop_nullish.

(** X7: [all] followed by [unwrap]. When every element is a [Some]
    container, [all(options).isSome()] is [true] and
    [all(options).unwrap()] returns the array [all] built, which holds the
    payloads in order; the array given and the containers in it are as
    they were. *)
Theorem all_then_unwrap (NONE : val) (s : state) (lo : loc)
    (os vs : list val) (fuel : nat) :
  heap s !! lo = Some (Arr os) →
  Forall2 (is_some s) os vs → length os ≤ fuel →
  ∃ s',
    (r <- Option.all NONE fuel (VObject lo) ;; Option.unwrap r) s
      = (Return (VObject (loop_values s)), s') ∧
    (r <- Option.all NONE fuel (VObject lo) ;; Option.isSome r) s
      = (Return (VBoolean true), s') ∧
    heap s !! loop_values s = None ∧
    heap s' !! loop_values s = Some (Arr vs) ∧
    heap s' !! lo = Some (Arr os) ∧
    Forall2 (is_some s') os vs.
Proof.
  intros Hos Hall Hfuel.
  pose proof (all_of_somes NONE s lo os vs fuel Hos Hall Hfuel) as Hrun.
  cbv zeta in Hrun. fold (loop_values s) in Hrun.
  set (h := <[loop_values s := Arr vs]> (heap s)) in *.
  set (ls := fresh (dom h)) in *.
  set (s' := set_heap (<[ls := some_object (VObject (loop_values s))]> h) s) in *.
  assert (Hlv : heap s !! loop_values s = None) by apply fresh_unused.
  assert (Hls : h !! ls = None) by apply not_elem_of_dom, is_fresh.
  assert (Hkeep : ∀ l ob, heap s !! l = Some ob → heap s' !! l = Some ob).
  { intros l ob Hl. unfold s'. simpl.
    assert (Hh : h !! l = Some ob).
    { unfold h. rewrite lookup_insert_ne; [done|]. intros <-. congruence. }
    rewrite lookup_insert_ne; [done|]. intros <-. congruence. }
  assert (Hr : is_some s' (VObject ls) (VObject (loop_values s))).
  { unfold is_some, s'. simpl. by rewrite lookup_insert_eq. }
  exists s'. split; [|split; [|split; [|split; [|split]]]].
  - rewrite (bind_Return _ _ _ _ _ Hrun). unfold Option.unwrap.
    by apply expect_some.
  - rewrite (bind_Return _ _ _ _ _ Hrun). unfold Option.isSome.
    by rewrite (bind_Return _ _ _ _ _ (isNone_some _ _ _ Hr)).
  - done.
  - unfold s'. simpl. rewrite lookup_insert_ne.
    + unfold h. by rewrite lookup_insert_eq.
    + intros E. rewrite E in Hls. unfold h in Hls.
      by rewrite lookup_insert_eq in Hls.
  - by apply Hkeep.
  - eapply Forall2_impl; [exact Hall|]. intros o v (l & -> & Hl)%is_some_inv.
    unfold is_some. simpl. by apply Hkeep.
Qed.

Lemma all_then_unwrap_witness :
  ∃ s',
    (r <- Option.all loaded_NONE 2 (VObject 4) ;; Option.unwrap r) all_state
      = (Return (VObject 5), s') ∧
    heap s' !! 5 = Some (Arr [VNumber 1; VNumber 2]).
Proof.
  destruct (all_then_unwrap loaded_NONE all_state 4
              [VObject 1; VObject 2] [VNumber 1; VNumber 2] 2)
    as (s' & H1 & _ & _ & H2 & _).
  - vm_compute. reflexivity.
  - repeat constructor.
  - simpl. lia.
  - exists s'. split; [exact H1 | exact H2].
Defined.

(** X8: a [null] or [undefined] element makes [all] fail when the scan
    reaches it: after a run of [Some] containers, [all] throws a newly
    built [TypeError], whatever follows the element, and returns no
    container. *)
Theorem all_rejects_nullish_element (NONE : val) (s : state) (lo : loc)
    (pre vs : list val) (x : val) (rest : list val) (fuel : nat) :
  heap s !! lo = Some (Arr (pre ++ x :: rest)) →
  Forall2 (is_some s) pre vs → x = VNull ∨ x = VUndefined →
  length pre < fuel →
  let s1 := loop_state s vs in
  let le := fresh (dom (heap s1)) in
  heap s1 !! le = None ∧
  ∃ fields,
    Option.all NONE fuel (VObject lo) s
    = (Throw (VObject le),
       set_heap (<[le := Obj TypeErrorProto fields]> (heap s1)) s1).
Proof.
  intros Hos Hall Hx Hfuel s1 le. split; [apply fresh_unused|].
  destruct (loop_step_nullish NONE s lo _ Hos (fuel - S (length pre))
              (length pre) vs x) as [fields Hstep];
    [by apply list_lookup_middle | done |].
  exists fields. unfold Option.all.
  rewrite (bind_Return _ _ _ _ _ (new_Array_run s)).
  replace fuel with (length pre + S (fuel - S (length pre))) by lia.
  pose proof (loop_run_some NONE s lo _ Hos pre vs Hall [] [] (x :: rest)
                (S (fuel - S (length pre)))) as Hrun.
  cbn [length app] in Hrun. rewrite Hrun; [|done]. exact Hstep.
Qed.

(** [[some(4), null, none]] at address 2, in the sample state. *)
Lemma all_rejects_nullish_element_witness :
  ∃ fields,
    Option.all loaded_NONE 3 (VObject 2)
      (snd (alloc (Arr [VObject 1; VNull; loaded_NONE]) sample_state))
    = (Throw (VObject 4),
       set_heap (<[4 := Obj TypeErrorProto fields]>
         (heap (loop_state (snd (alloc (Arr [VObject 1; VNull; loaded_NONE])
                                   sample_state)) [VNumber 4])))
         (loop_state (snd (alloc (Arr [VObject 1; VNull; loaded_NONE])
                             sample_state)) [VNumber 4])).
Proof.
  apply (all_rejects_nullish_element loaded_NONE
           (snd (alloc (Arr [VObject 1; VNull; loaded_NONE]) sample_state)) 2
           [VObject 1] [VNumber 4] VNull [loaded_NONE] 3).
  - vm_compute. reflexivity.
  - repeat constructor.
  - by left.
  - simpl. lia.
Defined.

(** An array of containers is a run of [Some] containers throughout, or a
    run of [Some] containers followed by a first [None] container. *)
Lemma containers_split (s : state) (os : list val) :
  Forall (is_container s) os →
  (∃ vs, Forall2 (is_some s) os vs) ∨
  (∃ pre vs n rest,
     os = pre ++ n :: rest ∧ Forall2 (is_some s) pre vs ∧ is_none s n).
Proof.
  induction 1 as [|o os [[v Ho]|Ho] _ IH].
  - left. exists []. constructor.
  - destruct IH as [[vs Hvs]|(pre & vs & n & rest & -> & Hpre & Hn)].
    + left. exists (v :: vs). by constructor.
    + right. exists (o :: pre), (v :: vs), n, rest.
      split; [done|]. split; [by constructor|done].
  - right. exists [], [], o, os. split; [done|]. split; [constructor|done].
Qed.

(** X9: on an array of containers [all] always returns: it never throws,
    and fuel for as many iterations as the array has elements is always
    enough. The result is [NONE] when the array has a [None] container
    (the local array then holds the payloads met before the first one),
    and a new [Some] container wrapping the payloads otherwise. *)
Theorem all_returns_on_containers (NONE : val) (s : state) (lo : loc)
    (os : list val) (fuel : nat) :
  heap s !! lo = Some (Arr os) → Forall (is_container s) os →
  length os ≤ fuel →
  (∃ pre vs n rest,
     os = pre ++ n :: rest ∧ Forall2 (is_some s) pre vs ∧ is_none s n ∧
     Option.all NONE fuel (VObject lo) s = (Return NONE, loop_state s vs)) ∨
  (∃ vs,
     Forall2 (is_some s) os vs ∧
     let h := heap (loop_state s vs) in
     Option.all NONE fuel (VObject lo) s
     = (Return (VObject (fresh (dom h))),
        set_heap (<[fresh (dom h) := some_object (VObject (loop_values s))]> h) s)).
Proof.
  intros Hos Hall Hfuel.
  destruct (containers_split s os Hall)
    as [[vs Hvs]|(pre & vs & n & rest & -> & Hpre & Hn)].
  - right. exists vs. split; [done|].
    by apply (all_of_somes NONE s lo os vs fuel).
  - left. exists pre, vs, n, rest. split; [done|]. split; [done|]. split; [done|].
    apply (all_with_none NONE s lo pre vs n rest fuel); [done..|].
    rewrite length_app in Hfuel. simpl in Hfuel. lia.
Qed.

Lemma all_returns_on_containers_witness :
  (∃ pre vs n rest,
     [VObject 1; loaded_NONE; VObject 2] = pre ++ n :: rest ∧
     Forall2 (is_some all_state) pre vs ∧ is_none all_state n ∧
     Option.all loaded_NONE 3 (VObject 3) all_state
     = (Return loaded_NONE, loop_state all_state vs)) ∨
  (∃ vs,
     Forall2 (is_some all_state) [VObject 1; loaded_NONE; VObject 2] vs ∧
     let h := heap (loop_state all_state vs) in
     Option.all loaded_NONE 3 (VObject 3) all_state
     = (Return (VObject (fresh (dom h))),
        set_heap (<[fresh (dom h)
                    := some_object (VObject (loop_values all_state))]> h)
          all_state)).
Proof.
  apply (all_returns_on_containers loaded_NONE all_state 3
           [VObject 1; loaded_NONE; VObject 2] 3).
  - vm_compute. reflexivity.
  - constructor; [|constructor; [|constructor; [|constructor]]].
    + left. exists (VNumber 1). vm_compute. reflexivity.
    + right. vm_compute. reflexivity.
    + left. exists (VNumber 2). vm_compute. reflexivity.
  - simpl. lia.
Defined.

(** ** Containers are never changed *)

Section keeping.

Variable h0 : gmap loc object.

Lemma over_unused (s : state) : over h0 s → h0 !! fresh (dom (heap s)) = None.
Proof.
  intros H. destruct (h0 !! fresh (dom (heap s))) as [ob|] eqn:E; [|done].
  apply H in E. by rewrite fresh_unused in E.
Qed.

Lemma over_insert (s : state) (l : loc) (ob : object) :
  h0 !! l = None → over h0 s → over h0 (set_heap (<[l := ob]> (heap s)) s).
Proof.
  intros Hl H l' ob' Hl'. simpl. rewrite lookup_insert_ne; [by apply H|].
  intros <-. congruence.
Qed.

Lemma keeps_ret {A} (a : A) : keeps h0 (ret a).
Proof. by intros s H. Qed.

Lemma keeps_throw {A} (e : val) : keeps h0 (@throw A e).
Proof. by intros s H. Qed.

Lemma keeps_bind {A B} (m : M A) (k : A → M B) :
  keeps h0 m → (∀ a, keeps h0 (k a)) → keeps h0 (bind m k).
Proof.
  intros Hm Hk s H. unfold bind. specialize (Hm s H).
  destruct (m s) as [[a|e|] s1]; simpl in *; [by apply Hk|done|done].
Qed.

Lemma keeps_alloc (ob : object) : keeps h0 (alloc ob).
Proof. intros s H. apply over_insert; [by apply over_unused|done]. Qed.

Lemma keeps_throw_TypeError {A} (message : string) :
  keeps h0 (@throw_TypeError A message).
Proof.
  apply keeps_bind; [apply keeps_alloc|]. intros e. apply keeps_throw.
Qed.

Lemma keeps_get_prop (o : val) (k : string) : keeps h0 (get_prop o k).
Proof.
  destruct o; simpl; try apply keeps_ret; try apply keeps_throw_TypeError.
  intros s H. destruct (heap s !! l) as [[p f|es]|] eqn:E; try done.
  by apply (keeps_throw_TypeError (A := val)).
Qed.

Lemma keeps_array_length (a : val) : keeps h0 (array_length a).
Proof.
  destruct a; simpl; try apply keeps_throw_TypeError.
  intros s H. destruct (heap s !! l) as [[p f|es]|] eqn:E; try done;
    by apply (keeps_throw_TypeError (A := nat)).
Qed.

Lemma keeps_array_get (a : val) (i : nat) : keeps h0 (array_get a i).
Proof.
  destruct a; simpl; try apply keeps_throw_TypeError.
  intros s H. destruct (heap s !! l) as [[p f|es]|] eqn:E; try done;
    by apply (keeps_throw_TypeError (A := val)).
Qed.

(** Pushing to an array that is not of [h0] changes nothing of [h0]. *)
Lemma keeps_array_push (l : loc) (v : val) :
  h0 !! l = None → keeps h0 (array_push (VObject l) v).
Proof.
  intros Hl s H. simpl.
  destruct (heap s !! l) as [[p f|es]|] eqn:E;
    try by apply (keeps_throw_TypeError (A := unit)).
  by apply over_insert.
Qed.

Lemma keeps_some (v : val) : keeps h0 (Option.some v).
Proof.
  intros s H. rewrite some_run. apply over_insert; [by apply over_unused|done].
Qed.

Lemma keeps_new_UnwrapError (message : val) : keeps h0 (new_UnwrapError message).
Proof.
  intros s H. rewrite new_UnwrapError_run.
  apply over_insert; [by apply over_unused|done].
Qed.

Lemma keeps_isNone (this : val) : keeps h0 (Option.isNone this).
Proof. apply keeps_get_prop. Qed.

Lemma keeps_isSome (this : val) : keeps h0 (Option.isSome this).
Proof.
  apply keeps_bind; [apply keeps_isNone|]. intros b. apply keeps_ret.
Qed.

Lemma keeps_call_isSome (o : val) : keeps h0 (Option.call_isSome o).
Proof.
  destruct o; simpl; try apply keeps_throw_TypeError.
  intros s H. destruct (heap s !! l) as [[[] f|es]|] eqn:E;
    try by apply (keeps_throw_TypeError (A := val)).
  by apply keeps_isSome.
Qed.

Lemma keeps_match (this : val) (matcher : Matcher.t) :
  (∀ args, keeps h0 (Matcher.none matcher args)) →
  (∀ args, keeps h0 (Matcher.some matcher args)) →
  keeps h0 (Option.match_ this matcher).
Proof.
  intros Hn Hs. unfold Option.match_.
  apply keeps_bind; [apply keeps_isNone|]. intros b.
  destruct (truthy b); [done|].
  apply keeps_bind; [apply keeps_get_prop|done].
Qed.

Lemma keeps_all_loop (NONE : val) (lv : loc) (fuel : nat) :
  h0 !! lv = None →
  ∀ (options : val) (i : nat),
    keeps h0 (Option.all_loop NONE fuel options (VObject lv) i).
Proof.
  intros Hlv. induction fuel as [|fuel IH]; intros options i;
    cbn [Option.all_loop];
    (apply keeps_bind; [apply keeps_array_length|]); intros len;
    (destruct (i <? len); [|apply keeps_some]).
  - by intros s H.
  - apply keeps_bind; [apply keeps_array_get|]. intros o.
    apply keeps_bind; [apply keeps_call_isSome|]. intros b.
    destruct (truthy b); [|apply keeps_ret].
    apply keeps_bind; [apply keeps_get_prop|]. intros v.
    apply keeps_bind; [by apply keeps_array_push|]. intros _. apply IH.
Qed.

Lemma keeps_all (NONE : val) (fuel : nat) (options : val) :
  keeps h0 (Option.all NONE fuel options).
Proof.
  intros s H. unfold Option.all.
  rewrite (bind_Return _ _ _ _ _ (new_Array_run s)).
  apply keeps_all_loop.
  - by apply over_unused.
  - apply over_insert; [by apply over_unused|done].
Qed.

Lemma keeps_expect (this message : val) : keeps h0 (Option.expect this message).
Proof.
  unfold Option.expect.
  apply keeps_match; intros args; cbn [Matcher.none Matcher.some].
  - apply keeps_bind; [|intros e; apply keeps_throw].
    destruct (String.eqb "string" (typeof message));
      [apply keeps_new_UnwrapError | apply keeps_ret].
  - apply keeps_ret.
Qed.

Lemma keeps_unwrapOr (this defaultValue : val) :
  keeps h0 (Option.unwrapOr this defaultValue).
Proof.
  unfold Option.unwrapOr.
  apply keeps_match; intros args; cbn [Matcher.none Matcher.some];
    apply keeps_ret.
Qed.

Lemma keeps_map (this : val) (mapper : list val → M val) :
  (∀ args, keeps h0 (mapper args)) → keeps h0 (Option.map this mapper).
Proof.
  intros Hf. unfold Option.map.
  apply keeps_match; intros args; cbn [Matcher.none Matcher.some].
  - apply keeps_ret.
  - apply keeps_bind; [done|]. intros r. apply keeps_some.
Qed.

Lemma keeps_ifSome (this : val) (executor : list val → M val) :
  (∀ args, keeps h0 (executor args)) → keeps h0 (Option.ifSome this executor).
Proof.
  intros Hf. unfold Option.ifSome.
  apply keeps_bind; [by apply keeps_map|]. intros _. apply keeps_ret.
Qed.

Lemma keeps_ifNone (this : val) (executor : list val → M val) :
  (∀ args, keeps h0 (executor args)) → keeps h0 (Option.ifNone this executor).
Proof.
  intros Hf. unfold Option.ifNone.
  apply keeps_bind; [apply keeps_isNone|]. intros b.
  destruct (truthy b); [|apply keeps_ret].
  apply keeps_bind; [done|]. intros _. apply keeps_ret.
Qed.

Lemma keeps_unwrapOrElse (this : val) (thunk : list val → M val) :
  (∀ args, keeps h0 (thunk args)) → keeps h0 (Option.unwrapOrElse this thunk).
Proof.
  intros Hf. unfold Option.unwrapOrElse.
  apply keeps_match; intros args; cbn [Matcher.none Matcher.some];
    [done | apply keeps_ret].
Qed.

Lemma keeps_andThen (NONE this : val) (flatMapper : list val → M val) :
  (∀ args, keeps h0 (flatMapper args)) →
  keeps h0 (Option.andThen NONE this flatMapper).
Proof.
  intros Hf. unfold Option.andThen.
  apply keeps_match; intros args; cbn [Matcher.none Matcher.some];
    [apply keeps_ret | done].
Qed.

End keeping.

Lemma over_refl (s : state) : over (heap s) s.
Proof. by intros l ob H. Qed.

(** X10: containers are never changed. A method called on a container
    changes or removes no object that was in the heap when it was called:
    not the receiver, not an argument. [some], [isNone], [isSome],
    [expect], [unwrap] and [unwrapOr] only ever add objects, and so does
    [all] on an array of containers, which leaves the array and the
    containers in it as they were; [match], [map], [ifSome], [ifNone],
    [unwrapOrElse] and [andThen] do so as long as their callbacks change
    no object of that heap. This holds also when the method throws. *)
Theorem methods_keep_the_heap (NONE : val) (s : state) (l : loc) (ob : object) :
  heap s !! l = Some ob →
  (∀ v, heap (snd (Option.some v s)) !! l = Some ob) ∧
  (∀ fuel lo os,
     heap s !! lo = Some (Arr os) → Forall (is_container s) os →
     length os ≤ fuel →
     heap (snd (Option.all NONE fuel (VObject lo) s)) !! l = Some ob) ∧
  (∀ this,
     is_container s this →
     heap (snd (Option.isNone this s)) !! l = Some ob ∧
     heap (snd (Option.isSome this s)) !! l = Some ob ∧
     heap (snd (Option.unwrap this s)) !! l = Some ob ∧
     (∀ arg,
        heap (snd (Option.expect this arg s)) !! l = Some ob ∧
        heap (snd (Option.unwrapOr this arg s)) !! l = Some ob) ∧
     (∀ matcher,
        (∀ args, keeps (heap s) (Matcher.none matcher args)) →
        (∀ args, keeps (heap s) (Matcher.some matcher args)) →
        heap (snd (Option.match_ this matcher s)) !! l = Some ob) ∧
     (∀ f,
        (∀ args, keeps (heap s) (f args)) →
        heap (snd (Option.map this f s)) !! l = Some ob ∧
        heap (snd (Option.ifSome this f s)) !! l = Some ob ∧
        heap (snd (Option.ifNone this f s)) !! l = Some ob ∧
        heap (snd (Option.unwrapOrElse this f s)) !! l = Some ob ∧
        heap (snd (Option.andThen NONE this f s)) !! l = Some ob)).
Proof.
  intros Hl. pose proof (over_refl s) as Hs.
  split; [|split].
  - intros v. by apply (keeps_some (heap s) v s Hs).
  - intros fuel lo os _ _ _.
    by apply (keeps_all (heap s) NONE fuel (VObject lo) s Hs).
  - intros this _. split; [|split; [|split; [|split; [|split]]]].
    + by apply (keeps_isNone (heap s) this s Hs).
    + by apply (keeps_isSome (heap s) this s Hs).
    + by apply (keeps_expect (heap s) this _ s Hs).
    + intros arg. split.
      * by apply (keeps_expect (heap s) this arg s Hs).
      * by apply (keeps_unwrapOr (heap s) this arg s Hs).
    + intros matcher Hn Hsome.
      by apply (keeps_match (heap s) this matcher Hn Hsome s Hs).
    + intros f Hf. split; [|split; [|split; [|split]]].
      * by apply (keeps_map (heap s) this f Hf s Hs).
      * by apply (keeps_ifSome (heap s) this f Hf s Hs).
      * by apply (keeps_ifNone (heap s) this f Hf s Hs).
      * by apply (keeps_unwrapOrElse (heap s) this f Hf s Hs).
      * by apply (keeps_andThen (heap s) NONE this f Hf s Hs).
Qed.

Lemma methods_keep_the_heap_witness :
  heap (snd (Option.all loaded_NONE 3 (VObject 3) all_state)) !! 1
  = Some (some_object (VNumber 1)) ∧
  heap (snd (Option.map (VObject 1) (jest_fn "mapper" arg0) all_state)) !! 1
  = Some (some_object (VNumber 1)).
Proof.
  split.
  - apply (proj1 (proj2 (methods_keep_the_heap loaded_NONE all_state 1
                           (some_object (VNumber 1))
                           ltac:(vm_compute; reflexivity)))
             3 3 [VObject 1; loaded_NONE; VObject 2]).
    + vm_compute. reflexivity.
    + constructor; [|constructor; [|constructor; [|constructor]]].
      * left. exists (VNumber 1). vm_compute. reflexivity.
      * right. vm_compute. reflexivity.
      * left. exists (VNumber 2). vm_compute. reflexivity.
    + simpl. lia.
  - destruct (proj2 (proj2 (methods_keep_the_heap loaded_NONE all_state 1
                (some_object (VNumber 1)) ltac:(vm_compute; reflexivity)))
                (VObject 1))
      as (_ & _ & _ & _ & _ & H).
    + left. exists (VNumber 1). vm_compute. reflexivity.
    + apply (H (jest_fn "mapper" arg0)).
      intros args s Hover. exact Hover.
Defined.

(** ** Chains of [map], [andThen] and [unwrap] *)

(** X11: [map] on a [Some] container does not touch the receiver: when the
    mapper returns [r] and has left the receiver alone, the result is a
    reference other than the receiver, to a [Some] container with payload
    [r], the receiver still holds its payload, and [map(f).unwrap()]
    returns [r]. *)
Theorem map_builds_a_new_container (s s' : state) (this v r : val)
    (f : list val → M val) :
  is_some s this v → f [v] s = (Return r, s') → is_some s' this v →
  ∃ (l : loc) (s'' : state),
    Option.map this f s = (Return (VObject l), s'') ∧
    heap s' !! l = None ∧
    VObject l ≠ this ∧
    is_some s'' this v ∧
    is_some s'' (VObject l) r ∧
    (o <- Option.map this f ;; Option.unwrap o) s = (Return r, s'').
Proof.
  intros H Hf H'.
  assert (Hmap : Option.map this f s
                 = (Return (VObject (fresh (dom (heap s')))),
                    set_heap (<[fresh (dom (heap s')) := some_object r]> (heap s')) s')).
  { unfold Option.map. rewrite (match_some _ _ _ _ H). cbn [Matcher.some].
    rewrite (bind_Return _ _ _ _ _ Hf). apply some_run. }
  destruct (is_some_inv _ _ _ H') as (l0 & -> & Hl0).
  assert (Hne : fresh (dom (heap s')) ≠ l0).
  { intros E. rewrite <- E, fresh_unused in Hl0. discriminate. }
  assert (Hnew : is_some
            (set_heap (<[fresh (dom (heap s')) := some_object r]> (heap s')) s')
            (VObject (fresh (dom (heap s')))) r).
  { unfold is_some. simpl. by rewrite lookup_insert_eq. }
  eexists _, _. split; [exact Hmap|]. split; [apply fresh_unused|].
  split; [congruence|]. split; [|split; [exact Hnew|]].
  - unfold is_some. simpl. by rewrite lookup_insert_ne.
  - rewrite (bind_Return _ _ _ _ _ Hmap). unfold Option.unwrap.
    by apply expect_some.
Qed.

Lemma map_builds_a_new_container_witness :
  ∃ s'',
    Option.map sample_some (pure_fn (fun _ => VNumber 12)) sample_state
    = (Return (VObject 2), s'') ∧
    is_some s'' sample_some (VNumber 4) ∧
    is_some s'' (VObject 2) (VNumber 12).
Proof.
  destruct (map_builds_a_new_container sample_state sample_state sample_some
              (VNumber 4) (VNumber 12) (pure_fn (fun _ => VNumber 12)))
    as (l & s'' & H1 & _ & _ & H2 & H3 & _).
  - vm_compute. reflexivity.
  - reflexivity.
  - vm_compute. reflexivity.
  - exists s''. assert (l = 2) as ->.
    { assert (E := H1). vm_compute in E. by injection E. }
    done.
Defined.

Lemma map_pure_run (s : state) (this v : val) (f : val → val) :
  is_some s this v →
  Option.map this (pure_fn f) s
  = (Return (VObject (fresh (dom (heap s)))),
     set_heap (<[fresh (dom (heap s)) := some_object (f v)]> (heap s)) s).
Proof.
  intros H. unfold Option.map. rewrite (match_some _ _ _ _ H).
  cbn [Matcher.some]. unfold pure_fn.
  rewrite (bind_Return _ _ s (f v) s) by reflexivity. apply some_run.
Qed.

Lemma is_some_after_insert (s : state) (v : val) :
  is_some (set_heap (<[fresh (dom (heap s)) := some_object v]> (heap s)) s)
    (VObject (fresh (dom (heap s)))) v.
Proof. unfold is_some. simpl. by rewrite lookup_insert_eq. Qed.

(** X12: [map] composes. For effect-free [f] and [g] and a [Some]
    container with payload [v], [map(f).map(g).unwrap()] and
    [map(x => g(f(x))).unwrap()] both return [g(f(v))], and
    [map(x => x).unwrap()] returns [v]. On a [None] container a chain of
    [map]s returns the receiver and calls nothing, whatever the mappers. *)
Theorem map_composes (s : state) (this v : val) (f g : val → val) :
  (is_some s this v →
     fst ((o1 <- Option.map this (pure_fn f) ;;
           o2 <- Option.map o1 (pure_fn g) ;;
           Option.unwrap o2) s) = Return (g (f v)) ∧
     fst ((o <- Option.map this (pure_fn (fun x => g (f x))) ;;
           Option.unwrap o) s) = Return (g (f v)) ∧
     fst ((o <- Option.map this (pure_fn (fun x => x)) ;;
           Option.unwrap o) s) = Return v) ∧
  (is_none s this →
     ∀ f' g' : list val → M val,
       (o1 <- Option.map this f' ;; Option.map o1 g') s = (Return this, s)).
Proof.
  split; intros H.
  - split; [|split].
    + rewrite (bind_Return _ _ _ _ _ (map_pure_run s this v f H)).
      rewrite (bind_Return _ _ _ _ _
                 (map_pure_run _ _ (f v) g (is_some_after_insert s (f v)))).
      unfold Option.unwrap.
      by rewrite (expect_some _ _ (g (f v)) _ (is_some_after_insert _ _)).
    + rewrite (bind_Return _ _ _ _ _
                 (map_pure_run s this v (fun x => g (f x)) H)).
      unfold Option.unwrap.
      by rewrite (expect_some _ _ (g (f v)) _ (is_some_after_insert _ _)).
    + rewrite (bind_Return _ _ _ _ _ (map_pure_run s this v (fun x => x) H)).
      unfold Option.unwrap.
      by rewrite (expect_some _ _ v _ (is_some_after_insert _ _)).
  - intros f' g'.
    assert (E : ∀ k, Option.map this k s = (Return this, s)).
    { intros k. unfold Option.map. by rewrite (match_none _ _ _ H). }
    by rewrite (bind_Return _ _ _ _ _ (E f')), E.
Qed.

Lemma map_composes_witness :
  fst ((o1 <- Option.map sample_some (pure_fn (fun _ => VNumber 12)) ;;
        o2 <- Option.map o1 (pure_fn (fun _ => VString "foo")) ;;
        Option.unwrap o2) sample_state) = Return (VString "foo") ∧
  (o1 <- Option.map loaded_NONE failing_callback ;;
   Option.map o1 failing_callback) sample_state
  = (Return loaded_NONE, sample_state).
Proof.
  split.
  - apply (proj1 (proj1 (map_composes sample_state sample_some (VNumber 4)
             (fun _ => VNumber 12) (fun _ => VString "foo"))
             ltac:(vm_compute; reflexivity))).
  - apply (proj2 (map_composes sample_state loaded_NONE VNull
             (fun x => x) (fun x => x)) ltac:(vm_compute; reflexivity)).
Defined.



(** ** More on the canonical [None] *)

(** X14: the remaining methods keep the heap canonical too: [isNone],
    [isSome], [unwrap] and [unwrapOr] always, and [match], [ifSome],
    [ifNone] and [unwrapOrElse] when their callbacks do. So no method of
    the class ever makes a second object tagged [None], for any receiver
    and any arguments, also when it throws. *)
Theorem every_method_preserves_canonical (NONE : val) :
  (∀ this,
     preserves NONE (Option.isNone this) ∧
     preserves NONE (Option.isSome this) ∧
     preserves NONE (Option.unwrap this)) ∧
  (∀ this defaultValue, preserves NONE (Option.unwrapOr this defaultValue)) ∧
  (∀ this matcher,
     (∀ args, preserves NONE (Matcher.none matcher args)) →
     (∀ args, preserves NONE (Matcher.some matcher args)) →
     preserves NONE (Option.match_ this matcher)) ∧
  (∀ this f,
     (∀ args, preserves NONE (f args)) →
     preserves NONE (Option.ifSome this f) ∧
     preserves NONE (Option.ifNone this f) ∧
     preserves NONE (Option.unwrapOrElse this f)).
Proof.
  split; [|split; [|split]].
  - intros this. split; [|split].
    + apply preserves_get_prop.
    + apply preserves_isSome.
    + apply preserves_expect.
  - intros this d. unfold Option.unwrapOr.
    apply preserves_match; intros args; apply preserves_ret.
  - intros this matcher. apply preserves_match.
  - intros this f Hf. split; [|split].
    + unfold Option.ifSome. apply preserves_bind; [by apply preserves_map|].
      intros _. apply preserves_ret.
    + unfold Option.ifNone. apply preserves_bind; [apply preserves_get_prop|].
      intros b. destruct (truthy b); [|apply preserves_ret].
      apply preserves_bind; [done|]. intros _. apply preserves_ret.
    + unfold Option.unwrapOrElse.
      apply preserves_match; intros args; cbn [Matcher.none Matcher.some];
        [done | apply preserves_ret].
Qed.

Lemma every_method_preserves_canonical_witness :
  canonical loaded_NONE
    (snd (Option.unwrapOrElse loaded_NONE (jest_fn "thunk" arg0) sample_state)) ∧
  canonical loaded_NONE
    (snd (Option.ifSome sample_some (jest_fn "executor" arg0) sample_state)).
Proof.
  assert (Hcan : canonical loaded_NONE sample_state).
  { apply (preserves_some loaded_NONE (VNumber 4) loaded_state).
    destruct (NONE_init_canonical (mkState ∅ [])) as (_ & _ & H); [|exact H].
    intros l ob Hl. simpl in Hl. by rewrite lookup_empty in Hl. }
  assert (Hfn : ∀ label args, preserves loaded_NONE (jest_fn label arg0 args)).
  { intros label args s Hs. exact Hs. }
  destruct (every_method_preserves_canonical loaded_NONE) as (_ & _ & _ & H).
  split.
  - by apply (H loaded_NONE (jest_fn "thunk" arg0) (Hfn "thunk")).
  - by apply (H sample_some (jest_fn "executor" arg0) (Hfn "executor")).
Defined.

(** X15: the [None] that [all] returns is a [None] container like any
    other. Once the module is loaded, when an element of the array is a
    [None] container and those before it are [Some] containers,
    [all(options).isNone()] is [true], [all(options).unwrapOr(d)] is [d],
    and [all(options).unwrap()] throws a new [UnwrapError] with [unwrap]'s
    message. *)
Theorem all_none_then_query (NONE : val) (s : state) (lo : loc)
    (pre vs : list val) (n : val) (rest : list val) (fuel : nat) :
  is_none s NONE →
  heap s !! lo = Some (Arr (pre ++ n :: rest)) →
  Forall2 (is_some s) pre vs → is_none s n → length pre < fuel →
  let s1 := loop_state s vs in
  (r <- Option.all NONE fuel (VObject lo) ;; Option.isNone r) s
    = (Return (VBoolean true), s1) ∧
  (∀ d, (r <- Option.all NONE fuel (VObject lo) ;; Option.unwrapOr r d) s
        = (Return d, s1)) ∧
  (r <- Option.all NONE fuel (VObject lo) ;; Option.unwrap r) s
    = (Throw (VObject (fresh (dom (heap s1)))),
       set_heap (<[fresh (dom (heap s1))
                   := unwrap_error_object (VString unwrap_message)]> (heap s1)) s1).
Proof.
  intros HN Hos Hall Hn Hfuel s1.
  pose proof (all_with_none NONE s lo pre vs n rest fuel Hos Hall Hn Hfuel)
    as Hrun.
  fold (loop_values s) in Hrun. fold (loop_state s vs) in Hrun. fold s1 in Hrun.
  assert (HN1 : is_none s1 NONE).
  { destruct (is_none_inv _ _ HN) as (l & -> & Hl). unfold is_none. simpl.
    rewrite lookup_insert_ne; [done|]. intros <-.
    unfold loop_values in Hl. by rewrite fresh_unused in Hl. }
  split; [|split].
  - rewrite (bind_Return _ _ _ _ _ Hrun). by apply isNone_none.
  - intros d. rewrite (bind_Return _ _ _ _ _ Hrun).
    unfold Option.unwrapOr. by rewrite (match_none _ _ _ HN1).
  - rewrite (bind_Return _ _ _ _ _ Hrun). unfold Option.unwrap.
    by rewrite (expect_none_string _ _ _ HN1).
Qed.

Lemma all_none_then_query_witness :
  (r <- Option.all loaded_NONE 3 (VObject 3) ;; Option.isNone r) all_state
  = (Return (VBoolean true), loop_state all_state [VNumber 1]).
Proof.
  apply (all_none_then_query loaded_NONE all_state 3
           [VObject 1] [VNumber 1] loaded_NONE [VObject 2] 3).
  - vm_compute. reflexivity.
  - vm_compute. reflexivity.
  - repeat constructor.
  - vm_compute. reflexivity.
  - simpl. lia.
Defined.
